(** * sample_registry.mapping: mapping files of the sample registry

    A shallow embedding of [pythonlib/sample_registry/mapping.py] and the
    properties of its writers, parser, converter and validator.

    Text is [string]: a sequence of characters, a character being a code
    point below 256 ([ascii]).  A record (a Python [dict] from field name
    to field value) is a [gmap string string]; exceptions are the [Raise]
    branch of [result]. *)

From Stdlib Require Import Ascii String.
From stdpp Require Import gmap strings list sorting.

Set Warnings "-clear-no-such-hyp".

(** ** Exceptions *)

(** The [ValueError]s of the module, told apart by their message. *)
Inductive value_error :=
  | ConflictError (core_field : string)
      (* "Trying to convert from QIIME format mapping, but core field ..." *)
  | InvalidCharacterError (key : string) (r : gmap string string)
      (* "Illegal characters in %s: %s" *)
  | MissingFieldError (r : gmap string string)
      (* "No sample_name: %s" *)
  | DuplicateNameError (r : gmap string string)
      (* "Duplicate sample_name: %s" *)
  | DuplicateBarcodeError (r : gmap string string)
      (* "Duplicate barcode: %s" *)
  | NotInList (x : string).
      (* list.index(x) with x not in the list *)

Inductive exn :=
  | ValueError (e : value_error)
  | AssertionError            (* assert(all(keys)) *)
  | IndexError                (* list assignment index out of range *)
  | StopIterationInGenerator. (* next(f) on an exhausted iterator, inside a
                                 generator: surfaces as RuntimeError *)

Inductive result (A : Type) :=
  | Ok (a : A)
  | Raise (e : exn).
Arguments Ok {A} a.
Arguments Raise {A} e.

Global Instance result_ret : MRet result := fun A a => Ok a.
Global Instance result_bind : MBind result := fun A B f m =>
  match m with
  | Ok a => f a
  | Raise e => Raise e
  end.

Global Instance result_fmap : FMap result := fun A B f m =>
  match m with
  | Ok a => Ok (f a)
  | Raise e => Raise e
  end.

(** A [for] loop whose body may raise: the state is threaded through the
    turns and the first exception ends the loop. *)
Fixpoint for_each {A S : Type} (body : S → A → result S) (xs : list A)
    (st : S) : result S :=
  match xs with
  | [] => Ok st
  | x :: xs' => st' ← body st x; for_each body xs' st'
  end.

(** The spec's logical error kinds. *)
Definition is_DuplicateError (e : exn) : Prop :=
  match e with
  | ValueError (DuplicateNameError _) | ValueError (DuplicateBarcodeError _) => True
  | _ => False
  end.
Definition is_InvalidCharacterError (e : exn) : Prop :=
  match e with
  | ValueError (InvalidCharacterError _ _) => True
  | _ => False
  end.
Definition is_ConflictError (e : exn) : Prop :=
  match e with
  | ValueError (ConflictError _) => True
  | _ => False
  end.

(** ** The Python built-ins the module calls *)

Module Py.

Definition chr (n : nat) : ascii := ascii_of_nat n.
Definition ord (c : ascii) : nat := nat_of_ascii c.

Definition TAB : ascii := chr 9.
Definition LF : ascii := chr 10.
Definition CR : ascii := chr 13.

(** [str.isspace] on one character, for code points below 256. *)
Definition isspace (c : ascii) : bool :=
  let n := ord c in
  ((9 <=? n) && (n <=? 13)) || ((28 <=? n) && (n <=? 32))
  || (n =? 133) || (n =? 160).

(** Membership of a character in a string of characters. *)
Fixpoint char_in (c : ascii) (chars : string) : bool :=
  match chars with
  | EmptyString => false
  | String d chars' => if decide (c = d) then true else char_in c chars'
  end.

(** [str.lower] on one character, for code points below 256. *)
Definition lower_char (c : ascii) : ascii :=
  let n := ord c in
  if ((65 <=? n) && (n <=? 90))
     || ((192 <=? n) && (n <=? 222) && negb (n =? 215))
  then chr (n + 32) else c.

Fixpoint lower (s : string) : string :=
  match s with
  | EmptyString => EmptyString
  | String c s' => String (lower_char c) (lower s')
  end.

(** [s.lstrip(chars)] and [s.rstrip(chars)], the set of characters given
    as a predicate. *)
Fixpoint lstrip_with (p : ascii → bool) (s : string) : string :=
  match s with
  | EmptyString => EmptyString
  | String c s' => if p c then lstrip_with p s' else s
  end.

Fixpoint rstrip_with (p : ascii → bool) (s : string) : string :=
  match s with
  | EmptyString => EmptyString
  | String c s' =>
      match rstrip_with p s' with
      | EmptyString => if p c then EmptyString else String c EmptyString
      | r => String c r
      end
  end.

Definition lstrip (chars s : string) : string :=
  lstrip_with (fun c => char_in c chars) s.
Definition rstrip (chars s : string) : string :=
  rstrip_with (fun c => char_in c chars) s.

(** [s.strip()] *)
Definition strip (s : string) : string :=
  rstrip_with isspace (lstrip_with isspace s).

(** [s.startswith(c)] for a one-character prefix. *)
Definition startswith (c : ascii) (s : string) : bool :=
  match s with
  | String d _ => bool_decide (d = c)
  | EmptyString => false
  end.

(** [s.split(sep)] for a one-character separator. *)
Fixpoint split (sep : ascii) (s : string) : list string :=
  match s with
  | EmptyString => [EmptyString]
  | String c s' =>
      if decide (c = sep) then EmptyString :: split sep s'
      else match split sep s' with
           | t :: ts => String c t :: ts
           | [] => [String c EmptyString]
           end
  end.

(** [sep.join(l)] *)
Fixpoint join (sep : string) (l : list string) : string :=
  match l with
  | [] => EmptyString
  | [x] => x
  | x :: l' => x +:+ sep +:+ join sep l'
  end.

(** [l.index(x)]: the first position of [x]. *)
Fixpoint index (l : list string) (x : string) : result nat :=
  match l with
  | [] => Raise (ValueError (NotInList x))
  | y :: l' => if decide (y = x) then Ok 0 else n ← index l' x; Ok (S n)
  end.

(** [l[i] = x] *)
Definition setitem {A} (l : list A) (i : nat) (x : A) : result (list A) :=
  if decide (i < length l) then Ok (<[i := x]> l) else Raise IndexError.

(** [l[i]] *)
Definition getitem {A} (l : list A) (i : nat) : result A :=
  match l !! i with
  | Some x => Ok x
  | None => Raise IndexError
  end.

(** The lines a text stream yields when iterated: each ends with its line
    feed, except possibly the last. *)
Fixpoint readlines (s : string) : list string :=
  match s with
  | EmptyString => []
  | String c s' =>
      if decide (c = LF) then String c EmptyString :: readlines s'
      else match readlines s' with
           | line :: lines => String c line :: lines
           | [] => [String c EmptyString]
           end
  end.

End Py.

(** ** Module constants *)

Definition NAs : list string :=
  [""; "0000-00-00"; "null"; "Null"; "NA"; "na"; "none"; "None"].

Definition ascii_letters : string :=
  "abcdefghijklmnopqrstuvwxyzABCDEFGHIJKLMNOPQRSTUVWXYZ".
Definition digits : string := "0123456789".

Definition ALLOWED_CHARS : list (string * string) :=
  [ ("sample_name", "._-" +:+ ascii_letters +:+ digits);
    ("barcode_sequence", "AGCT");
    ("primer_sequence", "AGCTRYMKSWHBVDN") ].

Definition SAMPLE_FIELDS : list string := ["sample_name"; "barcode_sequence"].

Definition QIIME_FIELDS : list (string * string) :=
  [ ("SampleID", "sample_name");
    ("BarcodeSequence", "barcode_sequence") ].

(** ** The registry's collaborators *)

Record Run := {
  run_comment : string;
  run_date : string;
  run_region : string;
  run_platform : string;
  run_formatted_accession : string
}.

Record Sample := {
  name : string;
  barcode : string;
  primer : string;
  accession : string;
  formatted_accession : string
}.

(** An annotation: (sample accession, field, value). *)
Definition annotation : Type := string * string * string.

(** ** [_cast] *)

(** One turn of the loop over the annotations: the state is
    [(fields, rows)]. *)
Definition cast_step (accessions : list string)
    (st : list string * list (list string)) (a : annotation)
    : result (list string * list (list string)) :=
  let '(fields, rows) := st in
  let '(sample_acc, field, val) := a in
  if decide (sample_acc ∉ accessions) then Ok (fields, rows)
  else
    sample_idx ← Py.index accessions sample_acc;
    if decide (Py.lower field ∈ ["description"]) then Ok (fields, rows)
    else
      let '(fields, rows) :=
        if decide (field ∉ fields)
        then (fields ++ [field], (λ r, r ++ ["NA"]) <$> rows)
        else (fields, rows) in
      field_idx ← Py.index fields field;
      row ← Py.getitem rows sample_idx;
      row ← Py.setitem row field_idx val;
      rows ← Py.setitem rows sample_idx row;
      Ok (fields, rows).

Definition _cast (samples : list Sample) (annotations : list annotation)
    : result (list string * list (list string)) :=
  let fields := [] in
  let accessions := accession <$> samples in
  let rows := (λ _, []) <$> accessions in
  for_each (cast_step accessions) annotations (fields, rows).

(** ** [create] *)

(** [sorted(s.keys())]: code-point order. *)
Definition sorted_keys (s : gmap string string) : list string :=
  merge_sort String.le (elements (dom s)).

Definition add_column (column_names : list string) (key : string)
    : list string :=
  if decide (key ∉ column_names) then column_names ++ [key] else column_names.

Definition column_names_of (samples : list (gmap string string)) : list string :=
  foldl (λ column_names s, foldl add_column column_names (sorted_keys s))
        ["sample_name"; "barcode_sequence"] samples.

(** The inner loop over [s.items()].  The keys of a dict are distinct and
    each turn writes the cell of its own key, so the order of the turns
    does not show in the row. *)
Definition create_row (column_names : list string) (s : gmap string string)
    : result (list string) :=
  let row := (λ _, "NA") <$> column_names in
  for_each (λ row '(key, val),
              idx ← Py.index column_names key;
              Py.setitem row idx val)
           (map_to_list s) row.

Definition NL : string := String Py.LF "".
Definition TABs : string := String Py.TAB "".

(** [f] is the text written to the sink so far; the result is the text
    after the call. *)
Definition create (f : string) (samples : list (gmap string string))
    : result string :=
  let column_names := column_names_of samples in
  let line := Py.join TABs column_names in
  let f := f +:+ line in
  let f := f +:+ NL in
  for_each (λ f s,
              row ← create_row column_names s;
              let f := f +:+ Py.join TABs row in
              Ok (f +:+ NL))
           samples f.

(** ** [create_qiime] *)

Definition qiime_header_fields (annotation_fields : list string) : list string :=
  let qiime_fields := fst <$> QIIME_FIELDS in
  qiime_fields ++ annotation_fields ++ ["Description"].

Definition qiime_vals (s : Sample) (annotation_row : list string) : list string :=
  let sample_row := [name s; barcode s; primer s] in
  sample_row ++ annotation_row ++ [formatted_accession s].

Definition create_qiime (run : Run) (samples : list Sample)
    (annotations : list annotation) : result string :=
  let buff := "" in
  '(annotation_fields, annotation_rows) ← _cast samples annotations;
  (* Header line *)
  let fields := qiime_header_fields annotation_fields in
  let buff := buff +:+ "#" in
  let buff := buff +:+ Py.join TABs fields in
  let buff := buff +:+ NL in
  (* Comments *)
  let buff := buff +:+ ("#" +:+ run_comment run +:+ NL) in
  let buff := buff +:+ ("#Sequencing date: " +:+ run_date run +:+ NL) in
  let buff := buff +:+ ("#Region: " +:+ run_region run +:+ NL) in
  let buff := buff +:+ ("#Platform: " +:+ run_platform run +:+ NL) in
  let buff := buff +:+ ("#Bushman lab run accession: "
                        +:+ run_formatted_accession run +:+ NL) in
  (* Values *)
  let buff :=
    foldl (λ buff '(s, annotation_row),
             let vals := qiime_vals s annotation_row in
             let buff := buff +:+ Py.join TABs vals in
             buff +:+ NL)
          buff (zip samples annotation_rows) in
  Ok buff.

(** ** [parse] *)

Definition _tokenize (line : string) : list string :=
  let line := Py.rstrip (String Py.LF (String Py.CR "")) line in
  let toks := Py.split Py.TAB line in
  Py.strip <$> toks.

(** [dict(pairs)]: a later pair with the same key replaces the earlier. *)
Definition dict (pairs : list (string * string)) : gmap string string :=
  foldl (λ d '(k, v), <[k := v]> d) ∅ pairs.

(** One turn of the loop over the lines after the header: [None] when the
    line is skipped, the record otherwise. *)
Definition parse_line (keys : list string) (line : string)
    : option (gmap string string) :=
  if Py.startswith "#" line then None
  else if decide (Py.strip line = "") then None
  else
    let vals := _tokenize line in
    Some (dict (filter (λ kv, kv.2 ∉ NAs) (zip keys vals))).

(** [f] is the sequence of lines the iterator yields.  The generator
    raises, if at all, when its first record is requested: the loop after
    the header cannot raise. *)
Definition parse (f : list string) : result (list (gmap string string)) :=
  match f with
  | [] => Raise StopIterationInGenerator
  | first :: rest =>
      let header := Py.lstrip "#" first in
      let keys := _tokenize header in
      if forallb (λ k, negb (String.eqb k "")) keys
      then Ok (omap (parse_line keys) rest)
      else Raise AssertionError
  end.

(** ** [convert_from_qiime] *)

Definition rename_field (r : gmap string string) (p : string * string)
    : result (gmap string string) :=
  let '(qiime_field, core_field) := p in
  if decide (is_Some (r !! core_field))
  then Raise (ValueError (ConflictError core_field))
  else
    match r !! qiime_field with
    | Some qiime_val => Ok (<[core_field := qiime_val]> (delete qiime_field r))
    | None => Ok r
    end.

(** The body of the loop, for one record. *)
Definition convert_record (r : gmap string string) : result (gmap string string) :=
  let r := if decide (is_Some (r !! "Description"))
           then delete "Description" r else r in
  for_each rename_field QIIME_FIELDS r.

(** The generator, as the outcomes of its successive [next] calls: a
    converted record each, until the input ends or a record raises. *)
Fixpoint convert_from_qiime (recs : list (gmap string string))
    : list (result (gmap string string)) :=
  match recs with
  | [] => []
  | r :: recs' =>
      match convert_record r with
      | Ok r' => Ok r' :: convert_from_qiime recs'
      | Raise e => [Raise e]
      end
  end.

(** ** [validate] *)

(** [all(char in char_set for char in val)] *)
Fixpoint all_chars_in (char_set : string) (val : string) : bool :=
  match val with
  | EmptyString => true
  | String char val' => Py.char_in char char_set && all_chars_in char_set val'
  end.

Definition check_chars (r : gmap string string) (_ : unit)
    (kc : string * string) : result unit :=
  let '(key, char_set) := kc in
  match r !! key with
  | Some val =>
      if all_chars_in char_set val then Ok ()
      else Raise (ValueError (InvalidCharacterError key r))
  | None => Ok ()
  end.

(** One turn of the loop over the records; the state is
    [(sample_names, barcodes)]. *)
Definition validate_step (st : gset string * gset string)
    (r : gmap string string) : result (gset string * gset string) :=
  let '(sample_names, barcodes) := st in
  _ ← for_each (check_chars r) ALLOWED_CHARS ();
  match r !! "sample_name" with
  | None => Raise (ValueError (MissingFieldError r))
  | Some name =>
      if decide (name ∈ sample_names)
      then Raise (ValueError (DuplicateNameError r))
      else
        let sample_names := {[name]} ∪ sample_names in
        let barcode := default "" (r !! "barcode_sequence") in
        if decide (barcode ∈ barcodes)
        then Raise (ValueError (DuplicateBarcodeError r))
        else Ok (sample_names, {[barcode]} ∪ barcodes)
  end.

Definition validate (recs : list (gmap string string)) : result unit :=
  _ ← for_each validate_step recs (∅, ∅); Ok ().


(** ** [split_annotations] *)

(** The body of the loop, for one record.  The annotation keys are a
    Python set, and the order in which a set is iterated comes from the
    hashes of its elements and from the way it was built, not from its
    contents alone: [set_iter i r X] is the order in which the set [X],
    built from the keys of [r], is iterated at turn [i] of the loop.
    [None] stands for the [KeyError] of [r[k]]. *)
Definition split_record
    (set_iter : nat → gmap string string → gset string → list string)
    (i : nat) (r : gmap string string)
    : option (list string * list (string * string)) :=
  let sample := (λ f, default "" (r !! f)) <$> SAMPLE_FIELDS in
  let annotation_keys := dom r ∖ list_to_set SAMPLE_FIELDS in
  annotations ← mapM (λ k, v ← r !! k; Some (k, v))
                     (set_iter i r annotation_keys);
  Some (sample, annotations).

(** The generator from turn [i] on, as the outcomes of its successive
    [next] calls. *)
Fixpoint split_annotations_from
    (set_iter : nat → gmap string string → gset string → list string)
    (i : nat) (recs : list (gmap string string))
    : list (option (list string * list (string * string))) :=
  match recs with
  | [] => []
  | r :: recs' =>
      match split_record set_iter i r with
      | Some out => Some out :: split_annotations_from set_iter (S i) recs'
      | None => [None]
      end
  end.

Definition split_annotations
    (set_iter : nat → gmap string string → gset string → list string)
    (recs : list (gmap string string))
    : list (option (list string * list (string * string))) :=
  split_annotations_from set_iter 0 recs.

(** ** What [_cast] computes, cell by cell *)

(** The triple [t] ends up written to row [i], under field [f]. *)
Definition hits (accessions : list string) (i : nat) (f : string)
    (t : annotation) : bool :=
  let '(sample_acc, field, _) := t in
  match Py.index accessions sample_acc with
  | Ok sample_idx =>
      bool_decide (sample_idx = i) && bool_decide (field = f)
      && bool_decide (Py.lower field ∉ ["description"])
  | Raise _ => false
  end.

(** The value of the last triple of the stream written to row [i] under
    field [f], if there is one. *)
Definition last_value (accessions : list string) (i : nat) (f : string)
    (annotations : list annotation) : option string :=
  foldl (λ o t, if hits accessions i f t then Some t.2 else o) None annotations.

(** The state of the loop of [_cast] once it has consumed [annotations]. *)
Record cast_inv (accessions : list string) (annotations : list annotation)
    (fields : list string) (rows : list (list string)) : Prop := {
  inv_rows : length rows = length accessions;
  inv_width : ∀ i row, rows !! i = Some row → length row = length fields;
  inv_nodup : NoDup fields;
  inv_fields : ∀ f, f ∈ fields ↔
    ∃ a v, (a, f, v) ∈ annotations ∧ a ∈ accessions
           ∧ Py.lower f ∉ ["description"];
  inv_cells : ∀ i j f row, rows !! i = Some row → fields !! j = Some f →
    row !! j = Some (default "NA" (last_value accessions i f annotations))
}.

(** ** Words of the specification *)

(** Some constrained field of [r] holds a character outside its allowed set. *)
Definition has_illegal_char (r : gmap string string) : Prop :=
  ∃ key char_set val char,
    (key, char_set) ∈ ALLOWED_CHARS ∧ r !! key = Some val
    ∧ In char (list_ascii_of_string val) ∧ Py.char_in char char_set = false.

(** The sample names of the records, and their barcode values: the
    [barcode_sequence], or the empty string where there is none. *)
Definition sample_names_of (recs : list (gmap string string)) : list string :=
  omap (λ r : gmap string string, r !! "sample_name") recs.
Definition barcodes_of (recs : list (gmap string string)) : list string :=
  (λ r : gmap string string, default "" (r !! "barcode_sequence")) <$> recs.

(** The record minus the pairs whose value is a missing-value token. *)
Definition drop_missing (r : gmap string string) : gmap string string :=
  filter (λ kv : string * string, kv.2 ∉ NAs) r.

(** Text free of tabs, of newlines and of surrounding whitespace. *)
Definition clean (s : string) : Prop :=
  Py.char_in Py.TAB s = false
  ∧ Py.char_in Py.LF s = false ∧ Py.char_in Py.CR s = false
  ∧ Py.strip s = s.

Global Instance clean_dec s : Decision (clean s).
Proof. unfold clean. apply _. Defined.

(** The values of the record are clean. *)
Definition clean_values (s : gmap string string) : Prop :=
  map_Forall (λ _ v, clean v) s.

(** The cells of the row of [s] under the columns [column_names]. *)
Definition row_of (column_names : list string) (s : gmap string string)
    : list string :=
  (λ c, default "NA" (s !! c)) <$> column_names.

(** What the round trip needs of a record: named, clean keys; clean
    values; a sample name that does not open a comment; a row that is not
    blank, that is a column with no value or with a non-empty one. *)
Definition writable (column_names : list string) (s : gmap string string) : Prop :=
  map_Forall (λ k _, k ≠ "" ∧ clean k) s
  ∧ clean_values s
  ∧ Py.startswith "#" (default "NA" (s !! "sample_name")) = false
  ∧ Exists (λ c, s !! c ≠ Some "") column_names.

Global Instance writable_dec column_names s : Decision (writable column_names s).
Proof. unfold writable, clean_values. apply _. Defined.

(** The text of the lines, each closed by a line feed. *)
Definition lines_text (lines : list string) : string :=
  foldr (λ line text, line +:+ NL +:+ text) "" lines.

(** Writing the records to an empty sink and parsing the lines of the text. *)
Definition roundtrip (samples : list (gmap string string))
    : result (list (gmap string string)) :=
  txt ← create "" samples; parse (Py.readlines txt).

(** The round trip returns the records, each without its missing values. *)
Definition roundtrips (samples : list (gmap string string)) : Prop :=
  roundtrip samples = Ok (drop_missing <$> samples).

Definition run0 : Run :=
  {| run_comment := "pilot"; run_date := "2014-05-01"; run_region := "V1V2";
     run_platform := "454"; run_formatted_accession := "PCMP000042" |}.
Definition sampleA : Sample :=
  {| name := "a1"; barcode := "AGCT"; primer := "AGGT";
     accession := "A"; formatted_accession := "PCMP000001" |}.
Definition sampleA' : Sample :=
  {| name := "a2"; barcode := "TTTT"; primer := "AGGT";
     accession := "A"; formatted_accession := "PCMP000002" |}.

(** The record passes the checks of [validate] that come before the search
    for duplicates. *)
Definition passes_field_checks (r : gmap string string) : Prop :=
  ¬ has_illegal_char r ∧ is_Some (r !! "sample_name").

(** The duplicate error is raised exactly when a sample name or a barcode
    value repeats among the records. *)
Definition duplicates_detected (recs : list (gmap string string)) : Prop :=
  (∃ e, validate recs = Raise e ∧ is_DuplicateError e)
  ↔ (¬ NoDup (sample_names_of recs) ∨ ¬ NoDup (barcodes_of recs)).

Definition named (n : string) : gmap string string := {[ "sample_name" := n ]}.
Definition barcoded (n b : string) : gmap string string :=
  <["sample_name" := n]> {[ "barcode_sequence" := b ]}.

(** The two records of the specification's end-to-end example. *)
Definition rec1 : gmap string string := barcoded "S1" "AGCT".
Definition rec2 : gmap string string := <["plate" := "P1"]> (barcoded "S2" "TTTT").

(** ** Words of the further properties *)

(** The number of occurrences of [c] in [s]. *)
Fixpoint count_char (c : ascii) (s : string) : nat :=
  match s with
  | EmptyString => 0
  | String d s' => (if decide (d = c) then 1 else 0) + count_char c s'
  end.

(** The line is one that [parse] reads as data: no comment, not blank. *)
Definition data_line (line : string) : Prop :=
  Py.startswith "#" line = false ∧ Py.strip line ≠ "".

Global Instance data_line_dec line : Decision (data_line line).
Proof. unfold data_line. apply _. Defined.

(** The triple is one that [_cast] takes: its sample is listed and its
    field is not the description. *)
Definition taken (accessions : list string) (t : annotation) : Prop :=
  t.1.1 ∈ accessions ∧ Py.lower t.1.2 ∉ ["description"].

Global Instance taken_dec accessions t : Decision (taken accessions t).
Proof. unfold taken. apply _. Defined.

(** The record has none of the core names of [QIIME_FIELDS]. *)
Definition no_core_field (r : gmap string string) : Prop :=
  r !! "sample_name" = None ∧ r !! "barcode_sequence" = None.

(** The first constrained field, in the order of [allowed], whose value in
    [r] holds an illegal character. *)
Fixpoint first_illegal_field (allowed : list (string * string))
    (r : gmap string string) : option string :=
  match allowed with
  | [] => None
  | (key, char_set) :: allowed' =>
      match r !! key with
      | Some val =>
          if all_chars_in char_set val then first_illegal_field allowed' r
          else Some key
      | None => first_illegal_field allowed' r
      end
  end.

(** Reading a QIIME mapping file into registry records: the lines are
    parsed and the records converted. *)
Definition import_qiime (txt : string)
    : result (list (result (gmap string string))) :=
  convert_from_qiime <$> parse (Py.readlines txt).

(** A run whose comment lines stay one line each. *)
Definition run_one_line (run : Run) : Prop :=
  Py.char_in Py.LF (run_comment run) = false
  ∧ Py.char_in Py.LF (run_date run) = false
  ∧ Py.char_in Py.LF (run_region run) = false
  ∧ Py.char_in Py.LF (run_platform run) = false
  ∧ Py.char_in Py.LF (run_formatted_accession run) = false.

Global Instance run_one_line_dec run : Decision (run_one_line run).
Proof. unfold run_one_line. apply _. Defined.

(** A sample whose row reads back: clean cells, a name that does not open
    a comment, and a cell that is not empty. *)
Definition sample_writable (s : Sample) : Prop :=
  Forall clean [name s; barcode s; primer s; formatted_accession s]
  ∧ Py.startswith "#" (name s) = false
  ∧ Exists (λ cell, cell ≠ "") [name s; barcode s; primer s; formatted_accession s].

Global Instance sample_writable_dec s : Decision (sample_writable s).
Proof. unfold sample_writable. apply _. Defined.

(** The registry record of a sample's name and barcode, without missing
    values. *)
Definition qiime_core (s : Sample) : gmap string string :=
  drop_missing (<["sample_name" := name s]> {[ "barcode_sequence" := barcode s ]}).

(** * Properties *)

(** ** The loop and the built-ins *)

Lemma bind_Ok {A B : Type} (a : A) (f : A → result B) : Ok a ≫= f = f a.
Proof. done. Qed.

Lemma for_each_app {A S : Type} (body : S → A → result S) xs ys st :
  for_each body (xs ++ ys) st = st' ← for_each body xs st; for_each body ys st'.
Proof.
  revert st. induction xs as [|x xs IH]; intros st; simpl; [done|].
  destruct (body st x) as [st'|e]; simpl; [apply IH|done].
Qed.

Lemma for_each_snoc {A S : Type} (body : S → A → result S) xs x st :
  for_each body (xs ++ [x]) st = st' ← for_each body xs st; body st' x.
Proof.
  rewrite for_each_app. destruct (for_each body xs st) as [st'|e]; simpl; [|done].
  by destruct (body st' x).
Qed.

Module PyFacts.
Import Py.

Lemma index_Ok_lookup l x n : index l x = Ok n → l !! n = Some x.
Proof.
  revert n. induction l as [|y l IH]; intros n; simpl; [done|].
  case_decide as Hy; [intros [= <-]; by subst|].
  destruct (index l x) as [m|e]; simpl; [|done].
  intros [= <-]. by apply IH.
Qed.

Lemma index_Ok_first l x n m : index l x = Ok n → m < n → l !! m ≠ Some x.
Proof.
  revert n m. induction l as [|y l IH]; intros n m; simpl; [done|].
  case_decide as Hy; [intros [= <-]; lia|].
  destruct (index l x) as [k|e] eqn:Hk; simpl; [|done].
  intros [= <-] Hm. destruct m as [|m]; simpl; [congruence|].
  apply (IH k); [done|lia].
Qed.

Lemma index_elem_of l x : x ∈ l → ∃ n, index l x = Ok n.
Proof.
  induction l as [|y l IH]; [by intros ?%elem_of_nil|].
  intros Hx. simpl. case_decide as Hy; [by eexists|].
  apply elem_of_cons in Hx as [->|Hx]; [done|].
  destruct (IH Hx) as [n ->]. by eexists.
Qed.

Lemma index_Ok_elem_of l x n : index l x = Ok n → x ∈ l.
Proof. intros H%index_Ok_lookup. by eapply list_elem_of_lookup_2. Qed.

Lemma index_Ok_lt l x n : index l x = Ok n → n < length l.
Proof. intros H%index_Ok_lookup. by eapply lookup_lt_Some. Qed.

Lemma setitem_Ok {A} (l : list A) i x : i < length l → setitem l i x = Ok (<[i := x]> l).
Proof. intros. unfold setitem. by rewrite decide_True. Qed.

End PyFacts.

(** ** [_cast]: the invariant of the loop *)

Section Cast.
Variable accessions : list string.

Lemma hits_true i f a f' v :
  hits accessions i f (a, f', v) = true ↔
  Py.index accessions a = Ok i ∧ f' = f ∧ Py.lower f' ∉ ["description"].
Proof.
  unfold hits. destruct (Py.index accessions a) as [k|e].
  - rewrite !andb_true_iff, !bool_decide_eq_true.
    split; [intros [[-> ->] ?]|intros ([= ->] & -> & ?)]; done.
  - split; [done|]. by intros [? _].
Qed.

Lemma last_value_snoc i f annots t :
  last_value accessions i f (annots ++ [t]) =
  if hits accessions i f t then Some t.2 else last_value accessions i f annots.
Proof. unfold last_value. by rewrite foldl_app. Qed.

Lemma last_value_Some i f annots v :
  last_value accessions i f annots = Some v →
  ∃ a, (a, f, v) ∈ annots ∧ Py.index accessions a = Ok i
       ∧ Py.lower f ∉ ["description"].
Proof.
  induction annots as [|[[a f'] v'] annots IH] using rev_ind; [done|].
  rewrite last_value_snoc. destruct (hits _ _ _ _) eqn:Hh.
  - apply hits_true in Hh as (Hi & -> & Hd). intros [= <-].
    exists a. split; [|done]. apply elem_of_app. right. by apply list_elem_of_singleton.
  - intros (a0 & Hin & ?)%IH. exists a0. split; [|done].
    apply elem_of_app. by left.
Qed.

Lemma last_value_app_last i f pre a v post :
  Py.index accessions a = Ok i → Py.lower f ∉ ["description"] →
  (∀ v', (a, f, v') ∉ post) →
  last_value accessions i f (pre ++ (a, f, v) :: post) = Some v.
Proof.
  intros Hi Hd. induction post as [|[[a' f'] v'] post IH] using rev_ind; intros Hpost.
  - rewrite last_value_snoc.
    assert (hits accessions i f (a, f, v) = true) as -> by by apply hits_true.
    done.
  - replace (pre ++ (a, f, v) :: post ++ [(a', f', v')])
      with ((pre ++ (a, f, v) :: post) ++ [(a', f', v')])
      by by rewrite <-app_assoc.
    rewrite last_value_snoc. destruct (hits _ _ _ _) eqn:Hh.
    + apply hits_true in Hh as (Hi' & -> & _).
      assert (a' = a) as ->.
      { apply PyFacts.index_Ok_lookup in Hi, Hi'. congruence. }
      destruct (Hpost v'). apply elem_of_app. right. by apply list_elem_of_singleton.
    + apply IH. intros v0 Hin. apply (Hpost v0), elem_of_app. by left.
Qed.

Lemma cast_inv_init : cast_inv accessions [] [] ((λ _, []) <$> accessions).
Proof.
  split.
  - by rewrite length_fmap.
  - intros i row (? & -> & _)%list_lookup_fmap_Some. done.
  - constructor.
  - intros f. split; [by intros ?%elem_of_nil|].
    intros (a & v & ?%elem_of_nil & _). done.
  - intros i j f row _ ?. done.
Qed.

(** A turn that writes nothing. *)
Lemma cast_inv_skip annots fields rows t :
  (∀ i f, hits accessions i f t = false) →
  cast_inv accessions annots fields rows →
  cast_inv accessions (annots ++ [t]) fields rows.
Proof.
  intros Hskip [H1 H2 H3 H4 H5]. split; try done.
  - intros f. rewrite H4. split.
    + intros (a & v & Hin & ?). exists a, v. split; [|done].
      apply elem_of_app. by left.
    + intros (a & v & Hin & Ha & Hd). apply elem_of_app in Hin as [Hin|Hin].
      { by exists a, v. }
      apply list_elem_of_singleton in Hin as <-.
      destruct (PyFacts.index_elem_of _ _ Ha) as [n Hn].
      specialize (Hskip n f).
      assert (hits accessions n f (a, f, v) = true) by by apply hits_true.
      congruence.
  - intros i j f row Hi Hj. rewrite last_value_snoc, Hskip. by eapply H5.
Qed.

Lemma cast_step_inv annots fields rows t :
  cast_inv accessions annots fields rows →
  ∃ fields' rows',
    cast_step accessions (fields, rows) t = Ok (fields', rows')
    ∧ cast_inv accessions (annots ++ [t]) fields' rows'.
Proof.
  intros Hinv. destruct t as [[a f] v]. unfold cast_step.
  case_decide as Ha.
  { exists fields, rows. split; [done|]. apply cast_inv_skip; [|done].
    intros i f0. destruct (hits _ _ _ _) eqn:Hh; [|done].
    apply hits_true in Hh as [Hi%PyFacts.index_Ok_elem_of _]. done. }
  destruct (PyFacts.index_elem_of _ _ Ha) as [si Hsi]. rewrite Hsi. simpl.
  case_decide as Hd.
  { exists fields, rows. split; [done|]. apply cast_inv_skip; [|done].
    intros i f0. destruct (hits _ _ _ _) eqn:Hh; [|done].
    apply hits_true in Hh as (_ & _ & ?). done. }
  destruct Hinv as [H1 H2 H3 H4 H5].
  pose proof (PyFacts.index_Ok_lt _ _ _ Hsi) as Hsi_lt.
  set (st := if decide (f ∉ fields) then _ else _).
  assert (∃ fields' rows', st = (fields', rows')
    ∧ length rows' = length accessions
    ∧ (∀ i row, rows' !! i = Some row → length row = length fields')
    ∧ NoDup fields'
    ∧ (∀ f0, f0 ∈ fields' ↔ f0 = f ∨ f0 ∈ fields)
    ∧ (∀ i j f0 row, rows' !! i = Some row → fields' !! j = Some f0 →
         row !! j = Some (default "NA" (last_value accessions i f0 annots))))
    as (fields' & rows' & -> & H1' & H2' & H3' & H4' & H5').
  { subst st. case_decide as Hf.
    - eexists _, _. split; [done|]. split_and!.
      + by rewrite length_fmap.
      + intros i row (row0 & -> & Hrow0)%list_lookup_fmap_Some.
        rewrite !length_app. simpl. by rewrite (H2 _ _ Hrow0).
      + apply NoDup_app. split_and!; [done| |apply NoDup_singleton].
        intros x Hx ->%list_elem_of_singleton. done.
      + intros f0. rewrite elem_of_app, list_elem_of_singleton. tauto.
      + intros i j f0 row (row0 & -> & Hrow0)%list_lookup_fmap_Some Hj.
        apply lookup_app_Some in Hj as [Hj|[Hlen Hj]].
        * rewrite lookup_app_l by (rewrite (H2 _ _ Hrow0); by eapply lookup_lt_Some).
          by eapply H5.
        * apply list_lookup_singleton_Some in Hj as [Hj <-].
          assert (j = length fields) as -> by lia.
          rewrite <-(H2 _ _ Hrow0). rewrite lookup_app_r by done.
          rewrite Nat.sub_diag. simpl.
          destruct (last_value accessions i f annots) as [v0|] eqn:Hlv; [|done].
          apply last_value_Some in Hlv as (a0 & Hin & Hi0 & Hd0).
          destruct Hf. apply H4. exists a0, v0. split_and!; try done.
          by eapply PyFacts.index_Ok_elem_of.
    - eexists _, _. split; [done|]. split_and!; try done.
      intros f0. split; [by right|by intros [->|?]]. }
  assert (f ∈ fields') as Hf' by (apply H4'; by left).
  destruct (PyFacts.index_elem_of _ _ Hf') as [fj Hfj]. rewrite Hfj. simpl.
  pose proof (PyFacts.index_Ok_lt _ _ _ Hfj) as Hfj_lt.
  pose proof (PyFacts.index_Ok_lookup _ _ _ Hfj) as Hfj_lk.
  destruct (lookup_lt_is_Some_2 rows' si) as [row Hrow]; [lia|].
  unfold Py.getitem. rewrite Hrow. simpl.
  rewrite PyFacts.setitem_Ok by (by rewrite (H2' _ _ Hrow)). simpl.
  rewrite PyFacts.setitem_Ok by lia. simpl.
  eexists _, _. split; [done|]. split.
  - by rewrite length_insert.
  - intros i row0 Hi. destruct (decide (i = si)) as [->|Hne].
    + rewrite list_lookup_insert_eq in Hi by lia. injection Hi as <-.
      rewrite length_insert. by eapply H2'.
    + rewrite list_lookup_insert_ne in Hi by done. by eapply H2'.
  - done.
  - intros f0. rewrite H4', H4. split.
    + intros [->|(a0 & v0 & Hin & ?)].
      * exists a, v. split_and!; try done.
        apply elem_of_app. right. by apply list_elem_of_singleton.
      * exists a0, v0. split; [|done]. apply elem_of_app. by left.
    + intros (a0 & v0 & Hin & Ha0 & Hd0). apply elem_of_app in Hin as [Hin|Hin].
      * right. by exists a0, v0.
      * apply list_elem_of_singleton in Hin. left. congruence.
  - intros i j f0 row0 Hi Hj. rewrite last_value_snoc.
    destruct (hits _ _ _ _) eqn:Hh.
    + apply hits_true in Hh as (Hi' & -> & _).
      assert (i = si) as -> by congruence.
      assert (j = fj) as ->.
      { pose proof (NoDup_lookup _ _ _ _ H3' Hj Hfj_lk). done. }
      rewrite list_lookup_insert_eq in Hi by lia. injection Hi as <-.
      rewrite list_lookup_insert_eq by (by rewrite (H2' _ _ Hrow)). done.
    + assert (¬ (i = si ∧ f0 = f)) as Hne.
      { intros [-> ->]. 
        assert (hits accessions si f (a, f, v) = true) by by apply hits_true.
        congruence. }
      destruct (decide (i = si)) as [->|Hi_ne].
      * rewrite list_lookup_insert_eq in Hi by lia. injection Hi as <-.
        assert (f0 ≠ f) as Hf0 by (intros ->; by apply Hne).
        assert (j ≠ fj) by (intros ->; congruence).
        rewrite list_lookup_insert_ne by done. by eapply H5'.
      * rewrite list_lookup_insert_ne in Hi by done. by eapply H5'.
Qed.

Lemma cast_loop_inv annots :
  ∃ fields rows,
    for_each (cast_step accessions) annots ([], (λ _, []) <$> accessions)
      = Ok (fields, rows)
    ∧ cast_inv accessions annots fields rows.
Proof.
  induction annots as [|t annots IH] using rev_ind.
  - eexists _, _. split; [done|]. apply cast_inv_init.
  - destruct IH as (fields & rows & Hrun & Hinv).
    destruct (cast_step_inv annots fields rows t Hinv) as (fields' & rows' & Hstep & Hinv').
    exists fields', rows'. split; [|done].
    rewrite for_each_snoc, Hrun. done.
Qed.

(** Triples of untracked samples can be struck from the stream. *)
Lemma cast_loop_untracked annots st :
  for_each (cast_step accessions) annots st
  = for_each (cast_step accessions)
      (filter (λ t : annotation, t.1.1 ∈ accessions) annots) st.
Proof.
  revert st. induction annots as [|[[a f] v] annots IH]; intros [fields rows]; [done|].
  rewrite filter_cons. cbn [fst]. destruct (decide (a ∈ accessions)) as [Ha|Ha].
  - cbn [for_each]. destruct (cast_step _ _ _) as [st'|e]; simpl; [apply IH|done].
  - cbn [for_each].
    assert (cast_step accessions (fields, rows) (a, f, v) = Ok (fields, rows)) as ->
      by (unfold cast_step; by rewrite decide_True).
    apply IH.
Qed.

End Cast.

Lemma cast_spec (samples : list Sample) (annotations : list annotation) :
  ∃ fields rows,
    _cast samples annotations = Ok (fields, rows)
    ∧ cast_inv (accession <$> samples) annotations fields rows.
Proof. apply cast_loop_inv. Qed.

(** ** The EAV caster *)

(** C3: [_cast] returns, with one row per sample and every row as long as
    [fields], also the row of a sample without annotations.  The triples of
    an accession that no sample bears leave no trace: the result is the one
    of the stream without them, and every cell is ["NA"] or the value of a
    triple of a listed accession.  No field that lower-cases to
    ["description"] is in [fields]. *)
Theorem cast_alignment (samples : list Sample) (annotations : list annotation) :
  ∃ fields rows,
    _cast samples annotations = Ok (fields, rows)
    ∧ length rows = length samples
    ∧ (∀ i row, rows !! i = Some row → length row = length fields)
    ∧ _cast samples
        (filter (λ t : annotation, t.1.1 ∈ accession <$> samples) annotations)
      = Ok (fields, rows)
    ∧ (∀ row val, row ∈ rows → val ∈ row →
         val = "NA"
         ∨ ∃ a f, (a, f, val) ∈ annotations ∧ a ∈ accession <$> samples)
    ∧ (∀ f, f ∈ fields → Py.lower f ≠ "description").
Proof.
  destruct (cast_spec samples annotations) as (fields & rows & Hrun & [H1 H2 H3 H4 H5]).
  exists fields, rows. split_and!; [done| |done| | |].
  - by rewrite H1, length_fmap.
  - unfold _cast in *. by rewrite <-cast_loop_untracked.
  - intros row val [i Hi]%list_elem_of_lookup_1 [j Hj]%list_elem_of_lookup_1.
    destruct (lookup_lt_is_Some_2 fields j) as [f Hf].
    { rewrite <-(H2 _ _ Hi). by eapply lookup_lt_Some. }
    rewrite (H5 _ _ _ _ Hi Hf) in Hj. injection Hj as <-.
    destruct (last_value _ i f annotations) as [v|] eqn:Hlv; [|by left].
    right. apply last_value_Some in Hlv as (a & Hin & Ha & _).
    exists a, f. split; [done|]. by eapply PyFacts.index_Ok_elem_of.
  - intros f (a & v & _ & _ & Hd)%H4 Heq. apply Hd. rewrite Heq.
    by apply list_elem_of_singleton.
Qed.

(** C7: of the triples of one sample and one field, the last in stream order
    is the one whose value the cell holds: with [(a, f, v1)] before
    [(a, f, v2)] and no triple of [a] and [f] after them, the cell of the
    sample of [a] under [f] is [v2]. *)
Theorem cast_last_write_wins (samples : list Sample)
    (pre mid post : list annotation) (a f v1 v2 : string) (i : nat) :
  Py.index (accession <$> samples) a = Ok i →
  Py.lower f ≠ "description" →
  (∀ v, (a, f, v) ∉ post) →
  ∃ fields rows j row,
    _cast samples (pre ++ (a, f, v1) :: mid ++ (a, f, v2) :: post)
      = Ok (fields, rows)
    ∧ Py.index fields f = Ok j
    ∧ rows !! i = Some row
    ∧ row !! j = Some v2.
Proof.
  intros Hi Hd Hpost.
  assert (Py.lower f ∉ ["description"]) as Hd'
    by (by intros ?%list_elem_of_singleton).
  destruct (cast_spec samples (pre ++ (a, f, v1) :: mid ++ (a, f, v2) :: post))
    as (fields & rows & Hrun & [H1 H2 H3 H4 H5]).
  assert (f ∈ fields) as Hf.
  { apply H4. exists a, v2. split_and!; [|by eapply PyFacts.index_Ok_elem_of|done].
    rewrite elem_of_app, elem_of_cons, elem_of_app, elem_of_cons.
    right; right; right; by left. }
  destruct (PyFacts.index_elem_of _ _ Hf) as [j Hj].
  destruct (lookup_lt_is_Some_2 rows i) as [row Hrow].
  { rewrite H1. by eapply PyFacts.index_Ok_lt. }
  exists fields, rows, j, row. split_and!; try done.
  rewrite (H5 _ _ _ _ Hrow (PyFacts.index_Ok_lookup _ _ _ Hj)).
  replace (pre ++ (a, f, v1) :: mid ++ (a, f, v2) :: post)
    with ((pre ++ (a, f, v1) :: mid) ++ (a, f, v2) :: post)
    by (by rewrite <-app_assoc).
  by rewrite (last_value_app_last _ i) by done.
Qed.

Lemma cast_last_write_wins_witness :
  ∃ fields rows j row,
    _cast [sampleA] ([] ++ ("A", "x", "1") :: [] ++ ("A", "x", "2") :: [])
      = Ok (fields, rows)
    ∧ Py.index fields "x" = Ok j
    ∧ rows !! 0 = Some row
    ∧ row !! j = Some "2".
Proof.
  apply (cast_last_write_wins [sampleA] [] [] [] "A" "x" "1" "2" 0).
  - reflexivity.
  - discriminate.
  - intros v H. inversion H.
Defined.

(** C10: when several samples bear one accession, its triples go to the
    row of the first of them, the one [index] finds: the rows of the later
    ones are ["NA"] throughout, and the value of the last triple of the
    accession and a field is in the first one's row. *)
Theorem cast_duplicate_accession (samples : list Sample)
    (annotations : list annotation) (a : string) (i : nat) :
  Py.index (accession <$> samples) a = Ok i →
  ∃ fields rows,
    _cast samples annotations = Ok (fields, rows)
    ∧ (accession <$> samples) !! i = Some a
    ∧ (∀ m, m < i → (accession <$> samples) !! m ≠ Some a)
    ∧ (∀ j s, j ≠ i → samples !! j = Some s → accession s = a →
         rows !! j = Some (replicate (length fields) "NA"))
    ∧ (∀ pre f v post,
         annotations = pre ++ (a, f, v) :: post →
         Py.lower f ≠ "description" →
         (∀ v', (a, f, v') ∉ post) →
         ∃ k row, Py.index fields f = Ok k ∧ rows !! i = Some row
                  ∧ row !! k = Some v).
Proof.
  intros Hi.
  destruct (cast_spec samples annotations) as (fields & rows & Hrun & [H1 H2 H3 H4 H5]).
  exists fields, rows. split_and!; [done| | | |].
  - by apply PyFacts.index_Ok_lookup.
  - intros m Hm. by eapply PyFacts.index_Ok_first.
  - intros j s Hne Hs Ha.
    destruct (lookup_lt_is_Some_2 rows j) as [row Hrow].
    { rewrite H1, length_fmap. by eapply lookup_lt_Some. }
    rewrite Hrow. f_equal. apply list_eq. intros k.
    destruct (decide (k < length fields)) as [Hk|Hk].
    + destruct (lookup_lt_is_Some_2 fields k Hk) as [f Hf].
      rewrite (H5 _ _ _ _ Hrow Hf), lookup_replicate_2 by done.
      destruct (last_value _ j f annotations) as [v|] eqn:Hlv; [|done].
      apply last_value_Some in Hlv as (a' & _ & Ha' & _).
      pose proof (PyFacts.index_Ok_lookup _ _ _ Ha') as Hlk.
      rewrite list_lookup_fmap, Hs in Hlk. simpl in Hlk.
      assert (a' = a) as -> by congruence. congruence.
    + rewrite lookup_ge_None_2 by (rewrite (H2 _ _ Hrow); lia).
      symmetry. apply lookup_ge_None_2. rewrite length_replicate. lia.
  - intros pre f v post -> Hd Hpost.
    assert (Py.lower f ∉ ["description"]) as Hd'
      by (by intros ?%list_elem_of_singleton).
    assert (f ∈ fields) as Hf.
    { apply H4. exists a, v. split_and!; [|by eapply PyFacts.index_Ok_elem_of|done].
      rewrite elem_of_app, elem_of_cons. by right; left. }
    destruct (PyFacts.index_elem_of _ _ Hf) as [k Hk].
    destruct (lookup_lt_is_Some_2 rows i) as [row Hrow].
    { rewrite H1. by eapply PyFacts.index_Ok_lt. }
    exists k, row. split_and!; try done.
    rewrite (H5 _ _ _ _ Hrow (PyFacts.index_Ok_lookup _ _ _ Hk)).
    by rewrite (last_value_app_last _ i) by done.
Qed.

Lemma cast_duplicate_accession_witness :
  ∃ fields rows,
    _cast [sampleA; sampleA'] [("A", "x", "1"); ("A", "y", "2")]
      = Ok (fields, rows)
    ∧ (accession <$> [sampleA; sampleA']) !! 0 = Some "A"
    ∧ (∀ m, m < 0 → (accession <$> [sampleA; sampleA']) !! m ≠ Some "A")
    ∧ (∀ j s, j ≠ 0 → [sampleA; sampleA'] !! j = Some s → accession s = "A" →
         rows !! j = Some (replicate (length fields) "NA"))
    ∧ (∀ pre f v post,
         [("A", "x", "1"); ("A", "y", "2")] = pre ++ ("A", f, v) :: post →
         Py.lower f ≠ "description" →
         (∀ v', ("A", f, v') ∉ post) →
         ∃ k row, Py.index fields f = Ok k ∧ rows !! 0 = Some row
                  ∧ row !! k = Some v).
Proof.
  apply (cast_duplicate_accession [sampleA; sampleA'] _ "A" 0). reflexivity.
Defined.

(** ** The QIIME writer *)

(** C1: the header of [create_qiime] joins the two names of [QIIME_FIELDS],
    the annotation fields and ["Description"], while every row joins three
    sample values, the annotation values and the accession: the header is
    one column short of each row.  For one sample and no annotation the
    header line has three columns and the row four. *)
Theorem create_qiime_header_one_short (samples : list Sample)
    (annotations : list annotation) :
  (∃ fields rows,
     _cast samples annotations = Ok (fields, rows)
     ∧ length (qiime_header_fields fields) = 2 + length fields + 1
     ∧ ∀ i s row, samples !! i = Some s → rows !! i = Some row →
         length (qiime_vals s row) = 3 + length fields + 1)
  ∧ ∃ header c1 c2 c3 c4 c5 row,
      Py.readlines <$> create_qiime run0 [sampleA] []
        = Ok [header; c1; c2; c3; c4; c5; row]
      ∧ Py.split Py.TAB header = ["#SampleID"; "BarcodeSequence"; "Description" +:+ NL]
      ∧ Py.split Py.TAB row = ["a1"; "AGCT"; "AGGT"; "PCMP000001" +:+ NL].
Proof.
  split.
  - destruct (cast_spec samples annotations) as (fields & rows & Hrun & [H1 H2 H3 H4 H5]).
    exists fields, rows. split_and!; [done| |].
    + unfold qiime_header_fields. rewrite !length_app. simpl. lia.
    + intros i s row _ Hrow. unfold qiime_vals. rewrite !length_app. simpl.
      rewrite (H2 _ _ Hrow). lia.
  - by eexists _, _, _, _, _, _, _.
Qed.

(** ** The format converter *)

Lemma rename_field_conflict r qiime_field core_field :
  is_Some (r !! core_field) →
  rename_field r (qiime_field, core_field)
  = Raise (ValueError (ConflictError core_field)).
Proof. intros H. unfold rename_field. by rewrite decide_True. Qed.

Lemma rename_field_move r qiime_field core_field :
  r !! core_field = None →
  rename_field r (qiime_field, core_field)
  = Ok (match r !! qiime_field with
        | Some qiime_val => <[core_field := qiime_val]> (delete qiime_field r)
        | None => r
        end).
Proof.
  intros H. unfold rename_field. rewrite decide_False by (rewrite H; by intros [? ?]).
  by destruct (r !! qiime_field).
Qed.

(** C4: for a record, [convert_from_qiime] drops ["Description"], then takes
    the pairs of the rename table in turn: a core name that is a key of the
    record raises the conflict error, otherwise the value under the QIIME
    name, if any, moves to the core name.  So a record with ["sample_name"]
    or ["barcode_sequence"] raises, and any other converts to the record
    without ["Description"], with ["SampleID"] and ["BarcodeSequence"]
    moved and all else kept; [{"SampleID": "S1", "sample_name": "S1"}]
    raises. *)
Theorem convert_from_qiime_spec (r : gmap string string) :
  convert_record r
    = for_each rename_field
        [("SampleID", "sample_name"); ("BarcodeSequence", "barcode_sequence")]
        (delete "Description" r)
  ∧ (∀ r0 qiime_name core_name,
       (is_Some (r0 !! core_name) →
        ∃ e, rename_field r0 (qiime_name, core_name) = Raise e ∧ is_ConflictError e)
       ∧ (r0 !! core_name = None →
          ∃ r1, rename_field r0 (qiime_name, core_name) = Ok r1
                ∧ r1 !! core_name = r0 !! qiime_name
                ∧ (qiime_name ≠ core_name → r1 !! qiime_name = None)
                ∧ ∀ k, k ≠ qiime_name → k ≠ core_name → r1 !! k = r0 !! k))
  ∧ ((is_Some (r !! "sample_name") ∨ is_Some (r !! "barcode_sequence")) ↔
     ∃ e, convert_record r = Raise e ∧ is_ConflictError e)
  ∧ (r !! "sample_name" = None → r !! "barcode_sequence" = None →
     ∃ r', convert_record r = Ok r'
           ∧ r' !! "Description" = None
           ∧ r' !! "SampleID" = None
           ∧ r' !! "BarcodeSequence" = None
           ∧ r' !! "sample_name" = r !! "SampleID"
           ∧ r' !! "barcode_sequence" = r !! "BarcodeSequence"
           ∧ ∀ k, k ∉ ["Description"; "SampleID"; "BarcodeSequence";
                       "sample_name"; "barcode_sequence"] →
                  r' !! k = r !! k)
  ∧ (∀ recs, convert_from_qiime (r :: recs)
             = match convert_record r with
               | Ok r' => Ok r' :: convert_from_qiime recs
               | Raise e => [Raise e]
               end)
  ∧ convert_from_qiime [<["SampleID" := "S1"]> (<["sample_name" := "S1"]> ∅)]
    = [Raise (ValueError (ConflictError "sample_name"))].
Proof.
  assert (convert_record r
    = for_each rename_field
        [("SampleID", "sample_name"); ("BarcodeSequence", "barcode_sequence")]
        (delete "Description" r)) as Hdef.
  { unfold convert_record. case_decide as Hd; [done|].
    rewrite delete_id; [done|]. by apply eq_None_not_Some. }
  split_and!; [done| | | |done|done].
  - intros r0 q c. split.
    + intros Hc. eexists. split; [by apply rename_field_conflict|done].
    + intros Hc. eexists. split; [by apply rename_field_move|].
      destruct (r0 !! q) as [v|] eqn:Hq.
      * split_and!.
        -- apply lookup_insert_eq.
        -- intros Hne. rewrite lookup_insert_ne by done. apply lookup_delete_eq.
        -- intros k Hkq Hkc. rewrite lookup_insert_ne by done.
           by apply lookup_delete_ne.
      * split_and!; [congruence|done|done].
  - rewrite Hdef. cbn [for_each]. split.
    + intros [Hs|Hb].
      * rewrite rename_field_conflict by (by rewrite lookup_delete_ne).
        by eexists.
      * destruct (delete "Description" r !! "sample_name") as [v|] eqn:Hs.
        { rewrite rename_field_conflict by (by rewrite Hs). by eexists. }
        rewrite rename_field_move, bind_Ok by done.
        rewrite rename_field_conflict; [by eexists|].
        destruct (delete "Description" r !! "SampleID");
          [rewrite lookup_insert_ne by done; rewrite lookup_delete_ne by done|];
          by rewrite lookup_delete_ne.
    + intros (e & Hrun & He).
      destruct (r !! "sample_name") as [v|] eqn:Hs; [left; by eexists|].
      destruct (r !! "barcode_sequence") as [v|] eqn:Hb; [right; by eexists|].
      rewrite rename_field_move, bind_Ok in Hrun by (by rewrite lookup_delete_ne).
      rewrite rename_field_move in Hrun; [done|].
      destruct (delete "Description" r !! "SampleID");
        [rewrite lookup_insert_ne by done; rewrite lookup_delete_ne by done|];
        by rewrite lookup_delete_ne.
  - intros Hs Hb. rewrite Hdef. cbn [for_each].
    rewrite rename_field_move, bind_Ok by (by rewrite lookup_delete_ne).
    set (r1 := match delete "Description" r !! "SampleID" with
               | Some v => <["sample_name" := v]> (delete "SampleID" (delete "Description" r))
               | None => delete "Description" r
               end).
    assert (∀ k, r1 !! k =
      if decide (k = "sample_name") then r !! "SampleID"
      else if decide (k = "SampleID") then None
      else if decide (k = "Description") then None else r !! k) as Hr1.
    { intros k. subst r1. rewrite lookup_delete_ne by done.
      destruct (r !! "SampleID") as [v|] eqn:Hq.
      - rewrite lookup_insert. repeat case_decide; subst; try done.
        + apply lookup_delete_eq.
        + rewrite lookup_delete_ne by done. apply lookup_delete_eq.
        + by rewrite !lookup_delete_ne.
      - repeat case_decide; subst; try done.
        + by rewrite lookup_delete_ne.
        + by rewrite lookup_delete_ne.
        + apply lookup_delete_eq.
        + by rewrite lookup_delete_ne. }
    rewrite rename_field_move, bind_Ok by (by rewrite Hr1).
    rewrite Hr1. simpl.
    eexists. split; [done|].
    destruct (r !! "BarcodeSequence") as [v|] eqn:Hq.
    + split_and!.
      * rewrite lookup_insert_ne, lookup_delete_ne, Hr1 by done. done.
      * rewrite lookup_insert_ne, lookup_delete_ne, Hr1 by done. done.
      * rewrite lookup_insert_ne by done. apply lookup_delete_eq.
      * rewrite lookup_insert_ne, lookup_delete_ne, Hr1 by done. done.
      * apply lookup_insert_eq.
      * intros k Hk. rewrite !not_elem_of_cons in Hk.
        destruct Hk as (? & ? & ? & ? & ? & _).
        rewrite lookup_insert_ne, lookup_delete_ne, Hr1 by done.
        by rewrite !decide_False.
    + split_and!; rewrite ?Hr1; try done.
      intros k Hk. rewrite !not_elem_of_cons in Hk.
      destruct Hk as (? & ? & ? & ? & ? & _).
      rewrite Hr1. by rewrite !decide_False.
Qed.

(** ** The record parser *)

(** C9: on an empty sequence of lines [parse] raises at the read of the
    header, it does not yield an empty sequence of records; the empty
    result takes at least one line, such as a header alone. *)
Theorem parse_empty_input :
  parse [] = Raise StopIterationInGenerator
  ∧ parse [] ≠ Ok []
  ∧ (∀ f, parse f = Ok [] → f ≠ [])
  ∧ parse ["sample_name" +:+ TABs +:+ "barcode_sequence" +:+ NL] = Ok [].
Proof.
  split_and!; [done|done| |done].
  intros f Hf ->. done.
Qed.

(** ** The validator *)

Lemma all_chars_in_false char_set val :
  all_chars_in char_set val = false ↔
  ∃ char, In char (list_ascii_of_string val) ∧ Py.char_in char char_set = false.
Proof.
  induction val as [|c val IH]; simpl.
  - split; [done|]. by intros (? & [] & _).
  - rewrite andb_false_iff, IH. split.
    + intros [Hc|(char & Hin & Hc)]; [exists c|exists char]; auto.
    + intros (char & [->|Hin] & Hc); [by left|]. right. by exists char.
Qed.

Lemma check_chars_Ok r kc :
  check_chars r () kc = Ok () ∨
  ∃ key char_set val,
    kc = (key, char_set) ∧ r !! key = Some val
    ∧ all_chars_in char_set val = false
    ∧ check_chars r () kc = Raise (ValueError (InvalidCharacterError key r)).
Proof.
  destruct kc as [key char_set]. unfold check_chars.
  destruct (r !! key) as [val|] eqn:Hk; [|by left].
  destruct (all_chars_in char_set val) eqn:Hall; [by left|].
  right. by exists key, char_set, val.
Qed.

(** The loop over [ALLOWED_CHARS]: it passes when every field passes and
    raises the illegal-character error of the first field that does not. *)
Lemma check_all_chars r allowed :
  (for_each (check_chars r) allowed () = Ok ()
   ∧ ∀ key char_set val, (key, char_set) ∈ allowed → r !! key = Some val →
       all_chars_in char_set val = true)
  ∨ ∃ key char_set val,
      (key, char_set) ∈ allowed ∧ r !! key = Some val
      ∧ all_chars_in char_set val = false
      ∧ for_each (check_chars r) allowed ()
        = Raise (ValueError (InvalidCharacterError key r)).
Proof.
  induction allowed as [|kc allowed IH].
  - left. split; [done|]. by intros ??? ?%elem_of_nil.
  - cbn [for_each].
    destruct (check_chars_Ok r kc) as [Hok|(key & cs & val & -> & Hk & Hbad & Herr)].
    + rewrite Hok, bind_Ok. destruct IH as [[Hrun Hall]|(key & cs & val & Hin & ?)].
      * left. split; [done|]. destruct kc as [key0 cs0].
        intros key cs val [[= -> ->]|Hin]%elem_of_cons Hk.
        -- unfold check_chars in Hok. rewrite Hk in Hok.
           by destruct (all_chars_in _ val).
        -- by eapply Hall.
      * right. exists key, cs, val. split; [by apply elem_of_cons; right|done].
    + right. exists key, cs, val. rewrite Herr.
      split_and!; [by apply elem_of_cons; left|done..].
Qed.

Lemma has_illegal_char_iff r :
  has_illegal_char r ↔
  ∃ key char_set val, (key, char_set) ∈ ALLOWED_CHARS ∧ r !! key = Some val
                      ∧ all_chars_in char_set val = false.
Proof.
  unfold has_illegal_char. split.
  - intros (key & cs & val & c & Hin & Hk & Hc). exists key, cs, val.
    split_and!; [done..|]. apply all_chars_in_false. by exists c.
  - intros (key & cs & val & Hin & Hk & (c & Hc)%all_chars_in_false).
    by exists key, cs, val, c.
Qed.

(** What one turn of [validate] does, check by check. *)
Lemma validate_step_cases sample_names barcodes r :
  (has_illegal_char r
   ∧ ∃ key, validate_step (sample_names, barcodes) r
            = Raise (ValueError (InvalidCharacterError key r)))
  ∨ (¬ has_illegal_char r
     ∧ validate_step (sample_names, barcodes) r =
       match r !! "sample_name" with
       | None => Raise (ValueError (MissingFieldError r))
       | Some name =>
           if decide (name ∈ sample_names)
           then Raise (ValueError (DuplicateNameError r))
           else if decide (default "" (r !! "barcode_sequence") ∈ barcodes)
           then Raise (ValueError (DuplicateBarcodeError r))
           else Ok ({[name]} ∪ sample_names,
                    {[default "" (r !! "barcode_sequence")]} ∪ barcodes)
       end).
Proof.
  unfold validate_step.
  destruct (check_all_chars r ALLOWED_CHARS)
    as [[Hrun Hall]|(key & cs & val & Hin & Hk & Hbad & Hrun)]; rewrite Hrun.
  - right. split; [|done]. intros (key & cs & val & Hin & Hk & Hbad)%has_illegal_char_iff.
    rewrite (Hall _ _ _ Hin Hk) in Hbad. done.
  - left. split; [|by exists key]. apply has_illegal_char_iff. by exists key, cs, val.
Qed.

(** C6: a record raises the illegal-character error exactly when one of its
    constrained fields holds a character outside the field's allowed set,
    whatever names and barcodes were seen before it; alone in the pass as
    well.  A barcode ["AGCN"] raises it, ["AGCT"] validates. *)
Theorem validate_illegal_characters (r : gmap string string) :
  (∀ sample_names barcodes,
     (∃ e, validate_step (sample_names, barcodes) r = Raise e
           ∧ is_InvalidCharacterError e)
     ↔ has_illegal_char r)
  ∧ ((∃ e, validate [r] = Raise e ∧ is_InvalidCharacterError e)
     ↔ has_illegal_char r)
  ∧ validate [<["sample_name" := "S1"]> (<["barcode_sequence" := "AGCN"]> ∅)]
    = Raise (ValueError (InvalidCharacterError "barcode_sequence"
        (<["sample_name" := "S1"]> (<["barcode_sequence" := "AGCN"]> ∅))))
  ∧ validate [<["sample_name" := "S1"]> (<["barcode_sequence" := "AGCT"]> ∅)]
    = Ok ().
Proof.
  assert (∀ sample_names barcodes,
     (∃ e, validate_step (sample_names, barcodes) r = Raise e
           ∧ is_InvalidCharacterError e)
     ↔ has_illegal_char r) as Hstep.
  { intros sample_names barcodes.
    destruct (validate_step_cases sample_names barcodes r)
      as [[Hbad [key Hrun]]|[Hok Hrun]]; rewrite Hrun.
    - split; [done|]. intros _. by eexists.
    - split; [|done]. intros (e & He & Hkind).
      destruct (r !! "sample_name"); [|by injection He as <-].
      repeat case_decide; try done; by injection He as <-. }
  split_and!; [done| |by vm_compute..].
  rewrite <-(Hstep ∅ ∅). unfold validate. cbn [for_each].
  destruct (validate_step (∅, ∅) r) as [st|e]; simpl.
  - split; by intros (e & ? & _).
  - split; intros (e' & [= <-] & ?); by exists e.
Qed.

Lemma no_illegal_char_run r :
  for_each (check_chars r) ALLOWED_CHARS () = Ok () → ¬ has_illegal_char r.
Proof.
  intros Hrun (key & cs & val & Hin & Hk & Hbad)%has_illegal_char_iff.
  destruct (check_all_chars r ALLOWED_CHARS) as [[_ Hall]|(? & ? & ? & _ & _ & _ & Herr)].
  - rewrite (Hall _ _ _ Hin Hk) in Hbad. done.
  - congruence.
Qed.

(** The loop of [validate] over records that pass the field checks, from
    any sets of names and barcodes already seen. *)
Lemma validate_loop_checked recs (sample_names barcodes : gset string) :
  Forall passes_field_checks recs →
  match for_each validate_step recs (sample_names, barcodes) with
  | Ok (sample_names', barcodes') =>
      sample_names' = list_to_set (sample_names_of recs) ∪ sample_names
      ∧ barcodes' = list_to_set (barcodes_of recs) ∪ barcodes
      ∧ NoDup (sample_names_of recs) ∧ NoDup (barcodes_of recs)
      ∧ (∀ n, n ∈ sample_names_of recs → n ∉ sample_names)
      ∧ (∀ b, b ∈ barcodes_of recs → b ∉ barcodes)
  | Raise e =>
      is_DuplicateError e
      ∧ (¬ NoDup (sample_names_of recs) ∨ ¬ NoDup (barcodes_of recs)
         ∨ (∃ n, n ∈ sample_names_of recs ∧ n ∈ sample_names)
         ∨ (∃ b, b ∈ barcodes_of recs ∧ b ∈ barcodes))
  end.
Proof.
  intros Hok. revert sample_names barcodes.
  induction Hok as [|r recs [Hchars [name Hname]] Hok IH]; intros N B.
  { simpl. split_and!; try set_solver; constructor. }
  cbn [for_each].
  destruct (validate_step_cases N B r) as [[Hbad _]|[_ ->]]; [done|].
  rewrite Hname.
  assert (sample_names_of (r :: recs) = name :: sample_names_of recs) as ->.
  { unfold sample_names_of. simpl. by rewrite Hname. }
  assert (barcodes_of (r :: recs)
          = default "" (r !! "barcode_sequence") :: barcodes_of recs) as -> by done.
  set (bc := default "" (r !! "barcode_sequence")).
  destruct (decide (name ∈ N)) as [HnN|HnN].
  { simpl. split; [done|]. right; right; left. exists name. split; [|done].
    by apply elem_of_cons; left. }
  destruct (decide (bc ∈ B)) as [HbB|HbB].
  { simpl. split; [done|]. right; right; right. exists bc. split; [|done].
    by apply elem_of_cons; left. }
  rewrite bind_Ok. specialize (IH ({[name]} ∪ N) ({[bc]} ∪ B)).
  destruct (for_each validate_step recs _) as [[N' B']|e].
  - destruct IH as (-> & -> & Hnd1 & Hnd2 & Hd1 & Hd2). split_and!.
    + set_solver.
    + set_solver.
    + apply NoDup_cons. split; [|done]. intros Hin. apply (Hd1 _ Hin). set_solver.
    + apply NoDup_cons. split; [|done]. intros Hin. apply (Hd2 _ Hin). set_solver.
    + intros n [->|Hin]%elem_of_cons; [done|]. specialize (Hd1 _ Hin). set_solver.
    + intros b [->|Hin]%elem_of_cons; [done|]. specialize (Hd2 _ Hin). set_solver.
  - destruct IH as [He Hcases]. split; [done|].
    destruct Hcases as [Hnd|[Hnd|[(n & Hin & HnN')|(b & Hin & HbB')]]].
    + left. intros [_ ?]%NoDup_cons. done.
    + right; left. intros [_ ?]%NoDup_cons. done.
    + apply elem_of_union in HnN' as [->%elem_of_singleton|HnN'].
      * left. intros [? _]%NoDup_cons. done.
      * right; right; left. exists n. split; [by apply elem_of_cons; right|done].
    + apply elem_of_union in HbB' as [->%elem_of_singleton|HbB'].
      * right; left. intros [? _]%NoDup_cons. done.
      * right; right; right. exists b. split; [by apply elem_of_cons; right|done].
Qed.

(** C5, as amended: when every record passes the character check and has a
    [sample_name], [validate] raises the duplicate error exactly when a
    sample name repeats or a barcode value repeats, the barcode value of a
    record without [barcode_sequence] being the empty string. *)
Theorem validate_duplicates (recs : list (gmap string string)) :
  Forall passes_field_checks recs →
  (∃ e, validate recs = Raise e ∧ is_DuplicateError e)
  ↔ (¬ NoDup (sample_names_of recs) ∨ ¬ NoDup (barcodes_of recs)).
Proof.
  intros Hok. pose proof (validate_loop_checked recs ∅ ∅ Hok) as Hloop.
  unfold validate.
  destruct (for_each validate_step recs (∅, ∅)) as [[N B]|e]; simpl.
  - destruct Hloop as (_ & _ & Hnd1 & Hnd2 & _). split.
    + by intros (? & ? & _).
    + by intros [?|?].
  - destruct Hloop as [He Hcases]. split.
    + intros _. destruct Hcases as [?|[?|[(? & _ & ?)|(? & _ & ?)]]]; set_solver.
    + intros _. by exists e.
Qed.

Lemma validate_duplicates_witness :
  duplicates_detected [barcoded "S1" "AGCT"; barcoded "S1" "TTTT"]
  ∧ validate [barcoded "S1" "AGCT"; barcoded "S1" "TTTT"]
    = Raise (ValueError (DuplicateNameError (barcoded "S1" "TTTT")))
  ∧ duplicates_detected [named "S1"; named "S2"]
  ∧ validate [named "S1"; named "S2"]
    = Raise (ValueError (DuplicateBarcodeError (named "S2"))).
Proof.
  split_and!.
  - apply validate_duplicates.
    repeat constructor; try (apply no_illegal_char_run; vm_compute; reflexivity);
      vm_compute; eauto.
  - vm_compute. reflexivity.
  - apply validate_duplicates.
    repeat constructor; try (apply no_illegal_char_run; vm_compute; reflexivity);
      vm_compute; eauto.
  - vm_compute. reflexivity.
Defined.

(** C5 as it stands fails: the second record repeats the name of the first,
    but its barcode holds an [N], and the character check comes first. *)
Lemma validate_duplicates_counterexample :
  ¬ duplicates_detected [barcoded "S1" "AGCT"; barcoded "S1" "AGCN"].
Proof.
  intros [_ Hdup].
  destruct Hdup as (e & Hrun & He).
  - left. intros Hnd. vm_compute in Hnd.
    apply NoDup_cons in Hnd as [Hnin _]. apply Hnin. by apply elem_of_cons; left.
  - vm_compute in Hrun. injection Hrun as <-. done.
Qed.

(** ** [dict] *)

Lemma dict_go_lookup_notin (pairs : list (string * string)) (m : gmap string string) k :
  k ∉ pairs.*1 →
  foldl (λ d '(k, v), <[k := v]> d) m pairs !! k = m !! k.
Proof.
  revert m. induction pairs as [|[k' v'] pairs IH]; intros m Hk; [done|].
  simpl in *. apply not_elem_of_cons in Hk as [Hne Hk].
  rewrite IH by done. by apply lookup_insert_ne.
Qed.

Lemma dict_go_lookup_Some (pairs : list (string * string)) (m : gmap string string) k v :
  foldl (λ d '(k, v), <[k := v]> d) m pairs !! k = Some v →
  (k, v) ∈ pairs ∨ m !! k = Some v.
Proof.
  revert m. induction pairs as [|[k' v'] pairs IH]; intros m; [by right|].
  simpl. intros [Hin|Hm]%IH.
  - left. by apply elem_of_cons; right.
  - rewrite lookup_insert in Hm. case_decide as Hk.
    + injection Hm as <-. subst. left. by apply elem_of_cons; left.
    + by right.
Qed.

Lemma dict_lookup_Some pairs k v : dict pairs !! k = Some v → (k, v) ∈ pairs.
Proof. by intros [?|?]%dict_go_lookup_Some. Qed.

Lemma dict_lookup_NoDup pairs k v :
  NoDup pairs.*1 → (k, v) ∈ pairs → dict pairs !! k = Some v.
Proof.
  unfold dict. generalize (∅ : gmap string string).
  induction pairs as [|[k' v'] pairs IH]; intros m Hnd Hin; [by apply elem_of_nil in Hin|].
  simpl in *. apply NoDup_cons in Hnd as [Hk' Hnd].
  apply elem_of_cons in Hin as [[= -> ->]|Hin].
  - rewrite dict_go_lookup_notin by done. apply lookup_insert_eq.
  - by apply IH.
Qed.

Lemma all_keys_nonblank keys :
  Forall (λ k, k ≠ "") keys ↔
  forallb (λ k, negb (String.eqb k "")) keys = true.
Proof.
  induction keys as [|k keys IH]; simpl.
  - split; [done|constructor].
  - rewrite Forall_cons, andb_true_iff, IH, negb_true_iff, String.eqb_neq. done.
Qed.




(** ** Text: joining, splitting and stripping *)

Module TextFacts.
Import Py.

Lemma app_cons x (a b : string) : String x a +:+ b = String x (a +:+ b).
Proof. done. Qed.

Lemma app_nil_l (b : string) : "" +:+ b = b.
Proof. done. Qed.

Lemma app_assoc (a b c : string) : (a +:+ b) +:+ c = a +:+ b +:+ c.
Proof.
  induction a as [|x a IH]; [done|]. rewrite !app_cons. by f_equal.
Qed.

Lemma app_nil_r (a : string) : a +:+ "" = a.
Proof. induction a as [|x a IH]; [done|]. rewrite app_cons. by f_equal. Qed.

Lemma char_in_cons c d s :
  char_in c (String d s) = false ↔ c ≠ d ∧ char_in c s = false.
Proof. simpl. case_decide; naive_solver. Qed.

Lemma char_in_app c a b :
  char_in c (a +:+ b) = char_in c a || char_in c b.
Proof.
  induction a as [|x a IH]; [done|]. rewrite app_cons. simpl. by case_decide.
Qed.

Lemma join_cons sep x y l :
  join sep (x :: y :: l) = x +:+ sep +:+ join sep (y :: l).
Proof. done. Qed.

Lemma char_in_join c cells :
  char_in c TABs = false →
  Forall (λ cell, char_in c cell = false) cells →
  char_in c (join TABs cells) = false.
Proof.
  intros Hc. induction 1 as [|x cells Hx Hcells IH]; [done|].
  destruct cells as [|y cells]; [done|].
  by rewrite join_cons, !char_in_app, Hx, Hc, IH.
Qed.

(** *** Lines *)

Lemma readlines_line l rest :
  char_in LF l = false →
  readlines (l +:+ NL +:+ rest) = (l +:+ NL) :: readlines rest.
Proof.
  induction l as [|c l IH].
  - intros _. rewrite !app_nil_l. unfold NL. by rewrite app_cons, app_nil_l.
  - intros [Hc Hl]%char_in_cons. rewrite !app_cons. simpl.
    rewrite decide_False by done. by rewrite IH.
Qed.

(** *** Splitting at tabs *)

Lemma split_clean x : char_in TAB x = false → split TAB x = [x].
Proof.
  induction x as [|c x IH]; [done|].
  intros [Hc Hx]%char_in_cons. simpl.
  rewrite decide_False by done. by rewrite IH.
Qed.

Lemma split_app x rest :
  char_in TAB x = false →
  split TAB (x +:+ String TAB rest) = x :: split TAB rest.
Proof.
  induction x as [|c x IH].
  - intros _. by rewrite app_nil_l.
  - intros [Hc Hx]%char_in_cons. rewrite app_cons. simpl.
    rewrite decide_False by done. by rewrite IH.
Qed.

Lemma split_join cells :
  cells ≠ [] →
  Forall (λ cell, char_in TAB cell = false) cells →
  split TAB (join TABs cells) = cells.
Proof.
  intros Hne Hcells. induction Hcells as [|x cells Hx Hcells IH]; [done|].
  destruct cells as [|y cells]; [by apply split_clean|].
  rewrite join_cons. unfold TABs at 1. rewrite app_cons, app_nil_l.
  rewrite split_app by done. by rewrite IH.
Qed.

(** *** Stripping *)

Lemma rstrip_with_keep p c s :
  p c = false → rstrip_with p (String c s) = String c (rstrip_with p s).
Proof. intros Hc. simpl. rewrite Hc. by destruct (rstrip_with p s). Qed.

Lemma rstrip_with_app_keep p x c s :
  p c = false →
  rstrip_with p (x +:+ String c s) = x +:+ String c (rstrip_with p s).
Proof.
  intros Hc. induction x as [|d x IH]; [by apply rstrip_with_keep|].
  rewrite !app_cons. cbn [rstrip_with]. rewrite IH. by destruct x.
Qed.

Lemma rstrip_with_snoc p s c :
  p c = true → rstrip_with p (s +:+ String c "") = rstrip_with p s.
Proof.
  intros Hc. induction s as [|d s IH].
  - rewrite app_nil_l. simpl. by rewrite Hc.
  - rewrite app_cons. cbn [rstrip_with]. by rewrite IH.
Qed.

Lemma rstrip_with_weaken (p q : ascii → bool) s :
  (∀ c, q c = true → p c = true) →
  rstrip_with p s = s → rstrip_with q s = s.
Proof.
  intros Hqp. induction s as [|c s IH]; [done|]. simpl.
  destruct (rstrip_with p s) as [|d r] eqn:Hr.
  - destruct (p c) eqn:Hc; [done|]. intros [= <-]. simpl.
    destruct (q c) eqn:Hq; [|done]. apply Hqp in Hq. congruence.
  - intros [= Hs]. rewrite IH by done. by rewrite <-Hs.
Qed.

Lemma lstrip_with_length p s : String.length (lstrip_with p s) ≤ String.length s.
Proof. induction s as [|c s IH]; simpl; [done|]. destruct (p c); simpl; lia. Qed.

Lemma rstrip_with_length p s : String.length (rstrip_with p s) ≤ String.length s.
Proof.
  induction s as [|c s IH]; simpl; [done|].
  destruct (rstrip_with p s); [destruct (p c)|]; simpl in *; lia.
Qed.

Lemma lstrip_with_fixed p s :
  String.length (lstrip_with p s) = String.length s → lstrip_with p s = s.
Proof.
  destruct s as [|c s]; simpl; [done|]. destruct (p c); [|done].
  pose proof (lstrip_with_length p s). lia.
Qed.

Lemma strip_fixed s : strip s = s → rstrip_with isspace s = s.
Proof.
  unfold strip. intros Hs.
  pose proof (rstrip_with_length isspace (lstrip_with isspace s)) as H1.
  pose proof (lstrip_with_length isspace s) as H2.
  rewrite Hs in H1.
  rewrite (lstrip_with_fixed isspace s) in Hs by lia. done.
Qed.

Lemma lstrip_with_head p s :
  lstrip_with p s = "" ∨ ∃ c s', lstrip_with p s = String c s' ∧ p c = false.
Proof.
  induction s as [|c s IH]; simpl; [by left|].
  destruct (p c) eqn:Hc; [done|]. right. by exists c, s.
Qed.

Lemma strip_empty s : strip s = "" → lstrip_with isspace s = "".
Proof.
  unfold strip. destruct (lstrip_with_head isspace s) as [->|(c & s' & -> & Hc)]; [done|].
  by rewrite rstrip_with_keep.
Qed.

Lemma lstrip_with_app_empty p a b :
  lstrip_with p (a +:+ b) = "" →
  lstrip_with p a = "" ∧ lstrip_with p b = "".
Proof.
  induction a as [|c a IH]; [done|]. rewrite app_cons. simpl. by destruct (p c).
Qed.

Lemma lstrip_with_join_empty p cells cell :
  lstrip_with p (join TABs cells) = "" → cell ∈ cells →
  lstrip_with p cell = "".
Proof.
  induction cells as [|x cells IH]; [by intros _ ?%elem_of_nil|].
  destruct cells as [|y cells].
  - simpl. by intros ? ->%list_elem_of_singleton.
  - rewrite join_cons. intros [Hx [_ Hrest]%lstrip_with_app_empty]%lstrip_with_app_empty.
    intros [->|Hin]%elem_of_cons; [done|]. by apply IH.
Qed.

Lemma startswith_app c a d b :
  startswith c (a +:+ String d b)
  = match a with "" => bool_decide (d = c) | _ => startswith c a end.
Proof. by destruct a. Qed.

End TextFacts.

(** ** [_tokenize] on a joined line *)

Section Tokenize.
Import Py TextFacts.

Lemma clean_NA : clean "NA".
Proof. by repeat split. Qed.

Lemma rstrip_join cells :
  cells ≠ [] → Forall clean cells →
  rstrip (String LF (String CR "")) (join TABs cells) = join TABs cells.
Proof.
  unfold rstrip. intros Hne Hcells.
  induction Hcells as [|x cells Hx Hcells IH]; [done|].
  destruct cells as [|y cells].
  - simpl. apply (rstrip_with_weaken isspace).
    + intros c. simpl. repeat case_decide; by subst.
    + apply strip_fixed, Hx.
  - rewrite join_cons. unfold TABs at 1. rewrite app_cons, app_nil_l.
    rewrite rstrip_with_app_keep by done. by rewrite IH.
Qed.

Lemma tokenize_join cells :
  cells ≠ [] → Forall clean cells →
  _tokenize (join TABs cells +:+ NL) = cells.
Proof.
  intros Hne Hcells. unfold _tokenize.
  unfold rstrip, NL. rewrite rstrip_with_snoc by done.
  fold (rstrip (String LF (String CR "")) (join TABs cells)).
  rewrite rstrip_join by done.
  rewrite split_join; [|done|by eapply Forall_impl; [done|intros ? [? _]]].
  apply list_eq. intros i. rewrite list_lookup_fmap.
  destruct (cells !! i) as [cell|] eqn:Hi; [|done]. simpl. f_equal.
  eapply Forall_lookup_1 in Hcells; [|done]. apply Hcells.
Qed.

(** A line of clean cells is blank only when every cell is empty. *)
Lemma blank_line_cells cells cell :
  Forall clean cells → strip (join TABs cells +:+ NL) = "" →
  cell ∈ cells → cell = "".
Proof.
  intros Hcells Hblank%strip_empty Hin.
  apply lstrip_with_app_empty in Hblank as [Hblank _].
  pose proof (lstrip_with_join_empty _ _ _ Hblank Hin) as Hcell.
  rewrite Forall_forall in Hcells. destruct (Hcells _ Hin) as (_ & _ & _ & Hstrip).
  unfold strip in Hstrip. by rewrite Hcell in Hstrip.
Qed.

End Tokenize.

(** ** [create]: the columns and the rows *)

Lemma sorted_keys_elem_of (s : gmap string string) k :
  k ∈ sorted_keys s ↔ is_Some (s !! k).
Proof.
  unfold sorted_keys. rewrite merge_sort_Permutation, elem_of_elements.
  apply elem_of_dom.
Qed.

Lemma add_columns_spec column_names keys :
  ∃ extra,
    foldl add_column column_names keys = column_names ++ extra
    ∧ (NoDup column_names → NoDup (column_names ++ extra))
    ∧ ∀ k, k ∈ column_names ++ extra ↔ k ∈ column_names ∨ k ∈ keys.
Proof.
  revert column_names. induction keys as [|key keys IH]; intros cols.
  - exists []. rewrite app_nil_r. split_and!; [done..|].
    intros k. rewrite elem_of_nil. tauto.
  - simpl. unfold add_column at 2. case_decide as Hkey.
    + destruct (IH (cols ++ [key])) as (extra & Heq & Hnd & Hin).
      exists (key :: extra).
      assert ((cols ++ [key]) ++ extra = cols ++ key :: extra) as Happ
        by (by rewrite <-app_assoc).
      rewrite Happ in *. split_and!; [done| |].
      * intros Hcols. apply Hnd.
        apply NoDup_app. split_and!; [done| |apply NoDup_singleton].
        by intros x Hx ->%list_elem_of_singleton.
      * intros k. rewrite Hin, elem_of_app, list_elem_of_singleton, elem_of_cons.
        tauto.
    + destruct (IH cols) as (extra & -> & Hnd & Hin).
      exists extra. split_and!; [done..|].
      intros k. rewrite Hin, elem_of_cons. split; [tauto|].
      intros [?|[->|?]]; auto.
Qed.

Lemma column_names_from column_names samples :
  ∃ extra,
    foldl (λ column_names s, foldl add_column column_names (sorted_keys s))
          column_names samples = column_names ++ extra
    ∧ (NoDup column_names → NoDup (column_names ++ extra))
    ∧ ∀ k, k ∈ column_names ++ extra ↔
           k ∈ column_names
           ∨ ∃ s : gmap string string, s ∈ samples ∧ is_Some (s !! k).
Proof.
  revert column_names. induction samples as [|s samples IH]; intros cols.
  - exists []. rewrite app_nil_r. split_and!; [done..|].
    intros k. split; [by left|]. intros [?|(s & ?%elem_of_nil & _)]; done.
  - simpl. destruct (add_columns_spec cols (sorted_keys s)) as (e1 & -> & Hnd1 & Hin1).
    destruct (IH (cols ++ e1)) as (e2 & -> & Hnd2 & Hin2).
    exists (e1 ++ e2). rewrite (assoc_L (++) cols e1 e2).
    split_and!; [done|by auto|].
    intros k. rewrite Hin2, Hin1, sorted_keys_elem_of. split.
    + intros [[?|?]|(s' & ? & ?)]; [by left|right..].
      * exists s. split; [by apply elem_of_cons; left|done].
      * exists s'. split; [by apply elem_of_cons; right|done].
    + intros [?|(s' & [->|?]%elem_of_cons & ?)]; [by left; left|by left; right|].
      right. by exists s'.
Qed.

(** The columns of a file: the two fixed ones first, no column twice, and
    a column for every key of every record. *)
Lemma column_names_spec samples :
  ∃ extra,
    column_names_of samples = "sample_name" :: "barcode_sequence" :: extra
    ∧ NoDup (column_names_of samples)
    ∧ ∀ k, k ∈ column_names_of samples ↔
           k ∈ ["sample_name"; "barcode_sequence"]
           ∨ ∃ s : gmap string string, s ∈ samples ∧ is_Some (s !! k).
Proof.
  unfold column_names_of.
  destruct (column_names_from ["sample_name"; "barcode_sequence"] samples)
    as (extra & -> & Hnd & Hin).
  exists extra. split_and!; [done| |done].
  apply Hnd. apply NoDup_cons. split; [|apply NoDup_singleton].
  by intros ?%list_elem_of_singleton.
Qed.

Lemma row_of_insert column_names (m : gmap string string) idx key val :
  NoDup column_names → column_names !! idx = Some key →
  <[idx := val]> (row_of column_names m) = row_of column_names (<[key := val]> m).
Proof.
  intros Hnd Hidx. apply list_eq. intros j. unfold row_of.
  destruct (decide (j = idx)) as [->|Hne].
  - rewrite list_lookup_insert_eq by (rewrite length_fmap; by eapply lookup_lt_Some).
    rewrite list_lookup_fmap, Hidx. simpl. by rewrite lookup_insert_eq.
  - rewrite list_lookup_insert_ne by done. rewrite !list_lookup_fmap.
    destruct (column_names !! j) as [c|] eqn:Hj; [|done]. simpl.
    rewrite lookup_insert_ne; [done|]. intros <-.
    by pose proof (NoDup_lookup _ _ _ _ Hnd Hj Hidx).
Qed.

Lemma create_row_go column_names (pairs : list (string * string)) (m : gmap string string) :
  NoDup column_names →
  (∀ k, k ∈ pairs.*1 → k ∈ column_names) →
  for_each (λ row '(key, val),
              idx ← Py.index column_names key;
              Py.setitem row idx val)
           pairs (row_of column_names m)
  = Ok (row_of column_names (foldl (λ d '(k, v), <[k := v]> d) m pairs)).
Proof.
  intros Hnd. revert m. induction pairs as [|[key val] pairs IH]; intros m Hkeys; [done|].
  cbn [for_each foldl].
  destruct (PyFacts.index_elem_of column_names key) as [idx Hidx].
  { apply Hkeys. simpl. by apply elem_of_cons; left. }
  rewrite Hidx, bind_Ok.
  rewrite PyFacts.setitem_Ok
    by (unfold row_of; rewrite length_fmap; by eapply PyFacts.index_Ok_lt).
  rewrite bind_Ok.
  rewrite (row_of_insert _ _ _ key) by (by eauto using PyFacts.index_Ok_lookup).
  apply IH. intros k Hk. apply Hkeys. simpl. by apply elem_of_cons; right.
Qed.

Lemma dict_map_to_list (s : gmap string string) : dict (map_to_list s) = s.
Proof.
  apply map_eq. intros k. destruct (s !! k) as [v|] eqn:Hk.
  - apply dict_lookup_NoDup; [apply NoDup_fst_map_to_list|].
    by apply elem_of_map_to_list.
  - destruct (dict (map_to_list s) !! k) as [v|] eqn:Hd; [|done].
    apply dict_lookup_Some, elem_of_map_to_list in Hd. congruence.
Qed.

Lemma create_row_spec column_names (s : gmap string string) :
  NoDup column_names →
  (∀ k, is_Some (s !! k) → k ∈ column_names) →
  create_row column_names s = Ok (row_of column_names s).
Proof.
  intros Hnd Hkeys. unfold create_row.
  assert ((λ _ : string, "NA") <$> column_names = row_of column_names ∅) as ->.
  { unfold row_of. apply list_fmap_ext. intros _ c _. by rewrite lookup_empty. }
  rewrite create_row_go; [|done|].
  - fold (dict (map_to_list s)). by rewrite dict_map_to_list.
  - intros k ([k' v] & -> & Hin%elem_of_map_to_list)%list_elem_of_fmap.
    apply Hkeys. by exists v.
Qed.

(** The text that [create] appends to the sink. *)
Lemma create_text f samples :
  create f samples
  = Ok (f +:+ lines_text
          (Py.join TABs (column_names_of samples)
           :: ((λ s, Py.join TABs (row_of (column_names_of samples) s))
                 <$> samples))).
Proof.
  unfold create.
  destruct (column_names_spec samples) as (extra & _ & Hnd & Hin).
  set (cols := column_names_of samples) in *.
  assert (∀ s, s ∈ samples → ∀ k, is_Some (s !! k) → k ∈ cols) as Hkeys.
  { intros s Hs k Hk. apply Hin. right. by exists s. }
  clearbody cols. clear Hin. cbn [lines_text foldr].
  rewrite <-!TextFacts.app_assoc.
  generalize ((f +:+ Py.join TABs cols) +:+ NL). clear f.
  induction samples as [|s samples IH]; intros f.
  - simpl. by rewrite TextFacts.app_nil_r.
  - cbn [for_each fmap list_fmap foldr].
    rewrite create_row_spec, bind_Ok; [|done|].
    2:{ apply Hkeys. by apply elem_of_cons; left. }
    rewrite bind_Ok, IH.
    + by rewrite !TextFacts.app_assoc.
    + intros s' Hs'. apply Hkeys. by apply elem_of_cons; right.
Qed.

Lemma readlines_lines_text lines :
  Forall (λ line, Py.char_in Py.LF line = false) lines →
  Py.readlines (lines_text lines) = (λ line, line +:+ NL) <$> lines.
Proof.
  induction 1 as [|line lines Hline Hlines IH]; [done|].
  cbn [lines_text foldr fmap list_fmap].
  rewrite TextFacts.readlines_line by done. by rewrite <-IH.
Qed.

(** ** [parse] on the lines of [create] *)

Lemma row_of_lookup column_names (s : gmap string string) i c :
  column_names !! i = Some c →
  row_of column_names s !! i = Some (default "NA" (s !! c)).
Proof. intros Hi. unfold row_of. by rewrite list_lookup_fmap, Hi. Qed.

Lemma row_of_clean column_names (s : gmap string string) :
  clean_values s → Forall clean (row_of column_names s).
Proof.
  intros Hvals. unfold row_of. apply Forall_fmap, Forall_forall. intros c _. simpl.
  destruct (s !! c) as [v|] eqn:Hc; [by eapply Hvals|apply clean_NA].
Qed.

(** The record read back from a row. *)
Lemma parse_row_dict column_names (s : gmap string string) :
  NoDup column_names →
  (∀ k, is_Some (s !! k) → k ∈ column_names) →
  dict (filter (λ kv : string * string, kv.2 ∉ NAs)
          (zip column_names (row_of column_names s)))
  = drop_missing s.
Proof.
  intros Hnd Hkeys.
  set (pairs := filter _ _).
  assert (NoDup pairs.*1) as Hpairs.
  { eapply sublist_NoDup; [|apply fmap_sublist, sublist_filter].
    rewrite fst_zip; [done|]. unfold row_of. by rewrite length_fmap. }
  assert (∀ k v, (k, v) ∈ pairs ↔ s !! k = Some v ∧ v ∉ NAs) as Hin.
  { intros k v. subst pairs. rewrite list_elem_of_filter, elem_of_lookup_zip_with.
    simpl. split.
    - intros [Hv (i & k' & v' & [= <- <-] & Hi & Hrow)].
      rewrite (row_of_lookup _ _ _ _ Hi) in Hrow. injection Hrow as Hrow.
      split; [|done]. destruct (s !! k) as [v0|]; simpl in *; [by subst|].
      subst v. destruct Hv. unfold NAs. set_solver.
    - intros [Hk Hv]. split; [done|].
      destruct (list_elem_of_lookup_1 column_names k) as [i Hi]; [by apply Hkeys|].
      exists i, k, v. split_and!; [done..|].
      by rewrite (row_of_lookup _ _ _ _ Hi), Hk. }
  apply map_eq. intros k. unfold drop_missing.
  destruct (filter _ s !! k) as [v|] eqn:Hk.
  - apply map_lookup_filter_Some in Hk as [Hk Hv]. simpl in Hv.
    apply dict_lookup_NoDup; [done|]. by apply Hin.
  - destruct (dict pairs !! k) as [v|] eqn:Hd; [|done].
    apply dict_lookup_Some, Hin in Hd as [Hd Hv].
    assert (filter (λ kv : string * string, kv.2 ∉ NAs) s !! k = Some v)
      by (by apply map_lookup_filter_Some).
    congruence.
Qed.

Lemma parse_line_row column_names extra (s : gmap string string) :
  column_names = "sample_name" :: "barcode_sequence" :: extra →
  NoDup column_names →
  (∀ k, is_Some (s !! k) → k ∈ column_names) →
  writable column_names s →
  parse_line column_names (Py.join TABs (row_of column_names s) +:+ NL)
  = Some (drop_missing s).
Proof.
  intros Hcols Hnd Hkeys (_ & Hvals & Hname & (c & Hc & Hcell)%Exists_exists).
  pose proof (row_of_clean column_names s Hvals) as Hclean.
  unfold parse_line.
  assert (Py.startswith "#" (Py.join TABs (row_of column_names s) +:+ NL) = false) as ->.
  { rewrite Hcols. unfold row_of. cbn [fmap list_fmap].
    rewrite TextFacts.join_cons, !TextFacts.app_assoc.
    unfold TABs at 1. rewrite TextFacts.app_cons, TextFacts.app_nil_l.
    rewrite TextFacts.startswith_app.
    by destruct (default "NA" (s !! "sample_name")). }
  rewrite decide_False.
  - rewrite tokenize_join; [|by rewrite Hcols|done].
    by rewrite parse_row_dict.
  - intros Hblank.
    destruct (list_elem_of_lookup_1 _ _ Hc) as [i Hi].
    pose proof (row_of_lookup _ s _ _ Hi) as Hrow.
    apply list_elem_of_lookup_2 in Hrow.
    pose proof (blank_line_cells _ _ Hclean Hblank Hrow) as Hempty.
    destruct (s !! c) as [v|]; simpl in Hempty; [|done].
    apply Hcell. by subst.
Qed.

(** C2, as amended: when, beyond clean values, the keys of the records are
    non-empty and clean, no sample name starts with the comment marker and
    no record holds the empty string under every column, the lines that
    [create] writes parse back to the records, in order, each without the
    pairs whose value is a missing-value token. *)
Theorem create_parse_roundtrip (samples : list (gmap string string)) :
  Forall (writable (column_names_of samples)) samples →
  roundtrip samples = Ok (drop_missing <$> samples).
Proof.
  intros Hw. unfold roundtrip. rewrite create_text, bind_Ok, TextFacts.app_nil_l.
  destruct (column_names_spec samples) as (extra & Hcols & Hnd & Hin).
  set (cols := column_names_of samples) in *.
  assert (∀ s, s ∈ samples → ∀ k, is_Some (s !! k) → k ∈ cols) as Hkeys.
  { intros s Hs k Hk. apply Hin. right. by exists s. }
  assert (Forall (λ c, c ≠ "" ∧ clean c) cols) as Hcols_clean.
  { apply Forall_forall. intros c [Hc|(s & Hs & [v Hv])]%Hin.
    - apply elem_of_cons in Hc as [->|Hc];
        [|apply list_elem_of_singleton in Hc as ->]; by repeat split.
    - rewrite Forall_forall in Hw. destruct (Hw _ Hs) as [Hk _]. by eapply Hk. }
  assert (Forall clean cols) as Hcols_clean'
    by (eapply Forall_impl; [exact Hcols_clean|by intros ? [_ ?]]).
  rewrite readlines_lines_text.
  2:{ apply Forall_cons. split.
      - apply TextFacts.char_in_join; [done|].
        eapply Forall_impl; [exact Hcols_clean'|by intros ? (_ & ? & _)].
      - apply Forall_fmap, Forall_forall. intros s Hs. simpl.
        apply TextFacts.char_in_join; [done|].
        rewrite Forall_forall in Hw.
        eapply Forall_impl; [apply row_of_clean, (Hw _ Hs)|].
        by intros ? (_ & ? & _). }
  cbn [fmap list_fmap]. unfold parse.
  assert (Py.lstrip "#" (Py.join TABs cols +:+ NL) = Py.join TABs cols +:+ NL) as ->.
  { rewrite Hcols. by rewrite TextFacts.join_cons. }
  rewrite tokenize_join; [|by rewrite Hcols|done].
  assert (forallb (λ k, negb (String.eqb k "")) cols = true) as ->.
  { apply all_keys_nonblank. eapply Forall_impl; [exact Hcols_clean|by intros ? [? _]]. }
  f_equal. clear Hin Hcols_clean Hcols_clean'. clearbody cols.
  induction samples as [|s samples IH]; [done|].
  apply Forall_cons in Hw as [Hs Hw].
  cbn [fmap list_fmap omap list_omap].
  rewrite (parse_line_row cols extra s); [|done|done| |done].
  - f_equal. apply IH; [done|].
    intros s' Hs'. apply Hkeys. by apply elem_of_cons; right.
  - apply Hkeys. by apply elem_of_cons; left.
Qed.

Lemma create_parse_roundtrip_witness :
  roundtrips [rec1; rec2]
  ∧ create "" [rec1; rec2]
    = Ok (lines_text
            [ Py.join TABs ["sample_name"; "barcode_sequence"; "plate"];
              Py.join TABs ["S1"; "AGCT"; "NA"];
              Py.join TABs ["S2"; "TTTT"; "P1"] ]).
Proof.
  split.
  - apply (create_parse_roundtrip [rec1; rec2]).
    apply (bool_decide_unpack _). vm_compute. exact I.
  - vm_compute. reflexivity.
Defined.

(** C2 as it stands fails: the values of the record are clean, but its
    sample name opens a comment line, which [parse] skips. *)
Lemma create_parse_roundtrip_counterexample :
  Forall clean_values [named "#S1"]
  ∧ roundtrip [named "#S1"] = Ok []
  ∧ ¬ roundtrips [named "#S1"].
Proof.
  split_and!.
  - apply (bool_decide_unpack _). vm_compute. exact I.
  - vm_compute. reflexivity.
  - unfold roundtrips.
    assert (roundtrip [named "#S1"] = Ok []) as -> by (vm_compute; reflexivity).
    discriminate.
Qed.

(** * Further properties *)

(** ** The registry writer: columns *)

(** The columns [create] computes: the two fixed names first, no name
    twice, and beyond the fixed names exactly the keys of the records. *)
Theorem create_columns (samples : list (gmap string string)) :
  (∃ extra,
     column_names_of samples = "sample_name" :: "barcode_sequence" :: extra)
  ∧ NoDup (column_names_of samples)
  ∧ ∀ k, k ∈ column_names_of samples ↔
         k ∈ ["sample_name"; "barcode_sequence"]
         ∨ ∃ s : gmap string string, s ∈ samples ∧ is_Some (s !! k).
Proof.
  destruct (column_names_spec samples) as (extra & Heq & Hnd & Hin).
  split_and!; [by exists extra|done|done].
Qed.

(** Records added at the end only add columns at the end: the columns of
    the shorter sequence stay where they are, and the new ones are keys of
    the added records that were no column before. *)
Theorem create_columns_stable (samples more : list (gmap string string)) :
  ∃ extra,
    column_names_of (samples ++ more) = column_names_of samples ++ extra
    ∧ ∀ k, k ∈ extra ↔
           (k ∉ column_names_of samples)
           ∧ (∃ s : gmap string string, s ∈ more ∧ is_Some (s !! k)).
Proof.
  unfold column_names_of. rewrite foldl_app.
  set (cols := foldl _ _ samples).
  assert (NoDup cols) as Hcols.
  { destruct (column_names_spec samples) as (_ & _ & Hnd & _). exact Hnd. }
  destruct (column_names_from cols more) as (extra & -> & Hnd & Hin).
  exists extra. split; [done|]. intros k.
  specialize (Hnd Hcols). apply NoDup_app in Hnd as (_ & Hdisj & _).
  specialize (Hin k). rewrite elem_of_app in Hin. split.
  - intros Hk. split; [by intros ?%Hdisj|].
    destruct Hin as [[?|?] _]; [by right| |done]. by apply Hdisj in Hk.
  - intros [Hk Hs]. destruct Hin as [_ [?|?]]; [by right|done..].
Qed.

(** The columns that one record adds beyond the fixed two are its other
    keys, in code-point order. *)
Theorem create_columns_sorted (s : gmap string string) :
  ∃ extra,
    column_names_of [s] = "sample_name" :: "barcode_sequence" :: extra
    ∧ Sorted String.le extra
    ∧ ∀ k, k ∈ extra ↔
           (is_Some (s !! k) ∧ k ∉ ["sample_name"; "barcode_sequence"]).
Proof.
  unfold column_names_of. cbn [foldl].
  assert (∀ keys cols, Sorted String.le keys →
    ∃ extra, foldl add_column cols keys = cols ++ extra
             ∧ Sorted String.le extra
             ∧ (∀ k, k ∈ extra → k ∈ keys)) as Hgo.
  { induction keys as [|key keys IH]; intros cols Hs.
    - exists []. rewrite app_nil_r. split_and!; [done|constructor|done].
    - apply Sorted_inv in Hs as [Hs Hhd]. cbn [foldl]. unfold add_column at 2.
      case_decide.
      + destruct (IH (cols ++ [key]) Hs) as (extra & -> & Hsorted & Hsub).
        exists (key :: extra). rewrite <-app_assoc. split_and!; [done| |].
        * constructor; [done|]. destruct extra as [|x extra]; constructor.
          assert (x ∈ keys) as Hx by (apply Hsub; by apply elem_of_cons; left).
          assert (Sorted String.le (key :: keys)) as Hall by (by constructor).
          apply Sorted_StronglySorted in Hall; [|apply _].
          apply StronglySorted_inv in Hall as [_ Hall].
          rewrite Forall_forall in Hall. by apply Hall.
        * intros k [->|?]%elem_of_cons; apply elem_of_cons; auto.
      + destruct (IH cols Hs) as (extra & -> & Hsorted & Hsub).
        exists extra. split_and!; [done..|].
        intros k ?. apply elem_of_cons. auto. }
  destruct (Hgo (sorted_keys s) ["sample_name"; "barcode_sequence"])
    as (extra & Heq & Hsorted & _).
  { apply Sorted_merge_sort. apply _. }
  exists extra. rewrite Heq. split_and!; [done..|].
  intros k. destruct (column_names_spec [s]) as (_ & _ & Hnd & Hin).
  unfold column_names_of in Hnd, Hin. cbn [foldl] in Hnd, Hin. rewrite Heq in Hnd, Hin.
  specialize (Hin k). change ("sample_name" :: "barcode_sequence" :: extra)
    with (["sample_name"; "barcode_sequence"] ++ extra) in Hnd.
  apply NoDup_app in Hnd as (_ & Hdisj & _).
  rewrite elem_of_app in Hin. split.
  - intros Hk. split.
    + destruct Hin as [[?|(s' & ->%list_elem_of_singleton & ?)] _]; [by right| |done].
      exfalso. by eapply Hdisj.
    + intros ?. by eapply Hdisj.
  - intros [Hk Hfix]. destruct Hin as [_ [?|?]]; [|done..].
    right. exists s. split; [by apply list_elem_of_singleton|done].
Qed.

(** ** The registry writer: text *)

(** [create] never raises.  It leaves what the sink holds in place and
    appends the header line and one line per record, in order; the row of
    a record has a cell per column, the value of the record under the
    column or ["NA"]. *)
Theorem create_writes_rows (f : string) (samples : list (gmap string string)) :
  ∃ rows,
    create f samples
      = Ok (f +:+ lines_text (Py.join TABs (column_names_of samples)
                              :: (Py.join TABs <$> rows)))
    ∧ length rows = length samples
    ∧ ∀ i s, samples !! i = Some s →
        ∃ row, rows !! i = Some row
               ∧ length row = length (column_names_of samples)
               ∧ ∀ j c, column_names_of samples !! j = Some c →
                        row !! j = Some (default "NA" (s !! c)).
Proof.
  exists (row_of (column_names_of samples) <$> samples). split_and!.
  - rewrite create_text. by rewrite <-list_fmap_compose.
  - by rewrite length_fmap.
  - intros i s Hi. exists (row_of (column_names_of samples) s). split_and!.
    + by rewrite list_lookup_fmap, Hi.
    + unfold row_of. by rewrite length_fmap.
    + intros j c Hj. by apply row_of_lookup.
Qed.

(** ** The tokenizer *)

Module TokenFacts.
Import Py TextFacts.

Lemma split_length sep s : length (split sep s) = S (count_char sep s).
Proof.
  induction s as [|c s IH]; [done|]. simpl. case_decide.
  - simpl. by rewrite IH.
  - destruct (split sep s); simpl in *; lia.
Qed.

Lemma split_no_sep sep s t : t ∈ split sep s → char_in sep t = false.
Proof.
  revert t. induction s as [|c s IH]; intros t.
  - simpl. by intros ->%list_elem_of_singleton.
  - simpl. case_decide as Hc.
    + intros [->|Ht]%elem_of_cons; [done|]. by apply IH.
    + destruct (split sep s) as [|t0 ts] eqn:Hs.
      * intros ->%list_elem_of_singleton. apply char_in_cons. split; [done|done].
      * intros [->|Ht]%elem_of_cons.
        -- apply char_in_cons. split; [by intros ->|].
           apply IH. by apply elem_of_cons; left.
        -- apply IH. by apply elem_of_cons; right.
Qed.

Lemma lstrip_with_char_in p c s :
  char_in c s = false → char_in c (lstrip_with p s) = false.
Proof.
  induction s as [|d s IH]; [done|]. intros Hs. simpl.
  destruct (p d); [|done]. apply IH. by apply char_in_cons in Hs as [_ ?].
Qed.

Lemma rstrip_with_char_in p c s :
  char_in c s = false → char_in c (rstrip_with p s) = false.
Proof.
  induction s as [|d s IH]; [done|]. intros [Hd Hs]%char_in_cons. simpl.
  specialize (IH Hs). destruct (rstrip_with p s) as [|e r].
  - destruct (p d); [done|]. by apply char_in_cons.
  - by apply char_in_cons.
Qed.

Lemma rstrip_with_cons_keep p c s d r :
  rstrip_with p s = String d r →
  rstrip_with p (String c s) = String c (String d r).
Proof. intros Hs. simpl. by rewrite Hs. Qed.

Lemma rstrip_with_idemp p s :
  rstrip_with p (rstrip_with p s) = rstrip_with p s.
Proof.
  induction s as [|c s IH]; [done|]. simpl.
  destruct (rstrip_with p s) as [|d r] eqn:Hr.
  - destruct (p c) eqn:Hc; [done|]. simpl. by rewrite Hc.
  - by apply rstrip_with_cons_keep.
Qed.

Lemma strip_idemp s : strip (strip s) = strip s.
Proof.
  unfold strip.
  destruct (lstrip_with_head isspace s) as [->|(c & s' & -> & Hc)]; [done|].
  rewrite rstrip_with_keep by done. simpl. rewrite Hc.
  rewrite rstrip_with_keep by done. by rewrite rstrip_with_idemp.
Qed.

End TokenFacts.

Lemma tokenize_tokens_of line tok :
  tok ∈ _tokenize line → Py.char_in Py.TAB tok = false ∧ Py.strip tok = tok.
Proof.
  unfold _tokenize. intros (t & -> & Ht)%list_elem_of_fmap. split.
  - unfold Py.strip.
    apply TokenFacts.rstrip_with_char_in, TokenFacts.lstrip_with_char_in.
    by eapply TokenFacts.split_no_sep.
  - apply TokenFacts.strip_idemp.
Qed.

(** The tokens of a line: one more than the tabs of the line without its
    trailing line feeds and carriage returns, so that empty cells, also at
    the end, keep their place; each token is free of tabs and of
    surrounding whitespace. *)
Theorem tokenize_tokens (line : string) :
  length (_tokenize line)
    = S (count_char Py.TAB (Py.rstrip (String Py.LF (String Py.CR "")) line))
  ∧ ∀ tok, tok ∈ _tokenize line →
      Py.char_in Py.TAB tok = false ∧ Py.strip tok = tok.
Proof.
  split.
  - unfold _tokenize. by rewrite length_fmap, TokenFacts.split_length.
  - apply tokenize_tokens_of.
Qed.

(** ** The record parser: lines and records *)

Lemma parse_line_data keys line :
  data_line line →
  parse_line keys line
  = Some (dict (filter (λ kv : string * string, kv.2 ∉ NAs)
                  (zip keys (_tokenize line)))).
Proof.
  intros [Hhash Hblank]. unfold parse_line. by rewrite Hhash, decide_False.
Qed.

Lemma parse_line_skipped keys line : ¬ data_line line → parse_line keys line = None.
Proof.
  intros Hskip. unfold parse_line.
  destruct (Py.startswith "#" line) eqn:Hhash; [done|].
  case_decide as Hblank; [done|]. destruct Hskip. by split.
Qed.

Lemma parse_lines_filter keys (rest : list string) :
  omap (parse_line keys) rest = omap (parse_line keys) (filter data_line rest).
Proof.
  induction rest as [|line rest IH]; [done|].
  rewrite filter_cons. destruct (decide (data_line line)) as [Hd|Hd].
  - cbn [omap list_omap]. by rewrite IH.
  - cbn [omap list_omap]. by rewrite parse_line_skipped.
Qed.

Lemma parse_lines_length keys (rest : list string) :
  length (omap (parse_line keys) rest) = length (filter data_line rest).
Proof.
  induction rest as [|line rest IH]; [done|].
  rewrite filter_cons. destruct (decide (data_line line)) as [Hd|Hd].
  - cbn [omap list_omap]. rewrite parse_line_data by done. simpl. by rewrite IH.
  - cbn [omap list_omap]. by rewrite parse_line_skipped.
Qed.

(** With at least a header line, [parse] raises exactly when a header key
    is blank, and then the assertion error.  Otherwise it yields one record
    per line that is neither a comment nor blank; the keys of a record are
    header keys, and its values are free of tabs and of surrounding
    whitespace and are no missing-value tokens. *)
Theorem parse_outcome (first : string) (rest : list string) :
  let keys := _tokenize (Py.lstrip "#" first) in
  ("" ∈ keys ∧ parse (first :: rest) = Raise AssertionError)
  ∨ (("" ∉ keys)
     ∧ ∃ recs, parse (first :: rest) = Ok recs
         ∧ length recs = length (filter data_line rest)
         ∧ ∀ r k v, r ∈ recs → r !! k = Some v →
             k ∈ keys ∧ (v ∉ NAs)
             ∧ Py.char_in Py.TAB v = false ∧ Py.strip v = v).
Proof.
  intros keys. unfold parse. fold keys.
  destruct (forallb _ keys) eqn:Hall.
  - right. apply all_keys_nonblank in Hall. rewrite Forall_forall in Hall.
    split; [by intros ?%Hall|].
    eexists. split_and!; [done|apply parse_lines_length|].
    intros r k v (line & Hline & Hr)%list_elem_of_omap Hkv.
    unfold parse_line in Hr. destruct (Py.startswith "#" line); [done|].
    case_decide; [done|]. injection Hr as <-.
    apply dict_lookup_Some, list_elem_of_filter in Hkv as [Hv Hkv].
    apply elem_of_zip_with in Hkv as (k' & v' & [= <- <-] & Hk & Hval).
    destruct (tokenize_tokens_of line v Hval) as [? ?]. by split_and!.
  - left. split; [|done].
    destruct (decide ("" ∈ keys)) as [?|Hnin]; [done|].
    assert (Forall (λ k, k ≠ "") keys) as Hne
      by (apply Forall_forall; by intros k Hk ->).
    apply all_keys_nonblank in Hne. congruence.
Qed.

(** Comment lines and blank lines after the header can be struck: the
    result of [parse] is that of the header and the other lines. *)
Theorem parse_skips_comments_and_blanks (first : string) (rest : list string) :
  parse (first :: rest) = parse (first :: filter data_line rest).
Proof.
  unfold parse. destruct (forallb _ _); [|done]. f_equal. apply parse_lines_filter.
Qed.

Lemma dict_lookup_last pre k v post :
  k ∉ post.*1 → dict (pre ++ (k, v) :: post) !! k = Some v.
Proof.
  intros Hk. unfold dict. rewrite foldl_app. cbn [foldl].
  rewrite dict_go_lookup_notin by done. apply lookup_insert_eq.
Qed.

(** A column name that stands twice in the header: the record holds, under
    that name, the value at its rightmost position whose cell is no
    missing-value token. *)
Theorem parse_duplicate_column (first line : string) (i : nat) (k v : string) :
  let keys := _tokenize (Py.lstrip "#" first) in
  let vals := _tokenize line in
  "" ∉ keys → data_line line →
  keys !! i = Some k → vals !! i = Some v → v ∉ NAs →
  (∀ j v', i < j → keys !! j = Some k → vals !! j = Some v' → v' ∈ NAs) →
  ∃ r, parse [first; line] = Ok [r] ∧ r !! k = Some v.
Proof.
  intros keys vals Hkeys Hdata Hi Hv Hna Hlater.
  assert (forallb (λ k, negb (String.eqb k "")) keys = true) as Hall.
  { apply all_keys_nonblank, Forall_forall. by intros k' Hk' ->. }
  unfold parse. fold keys. rewrite Hall. cbn [omap list_omap].
  rewrite parse_line_data by done. fold vals.
  eexists. split; [done|].
  assert (zip keys vals !! i = Some (k, v)) as Hz
    by (apply lookup_zip_with_Some; by exists k, v).
  rewrite <-(take_drop_middle _ _ _ Hz), filter_app, filter_cons_True by done.
  apply dict_lookup_last.
  intros ([k' v'] & Hk' & [Hv' Hin]%list_elem_of_filter)%list_elem_of_fmap.
  simpl in Hk', Hv'. subst k'.
  apply list_elem_of_lookup_1 in Hin as [j Hj]. rewrite lookup_drop in Hj.
  apply lookup_zip_with_Some in Hj as (? & ? & [= <- <-] & Hkj & Hvj).
  apply Hv'. eapply (Hlater (S i + j)); [lia|done..].
Qed.

Lemma parse_duplicate_column_witness :
  ∃ r, parse [ "id" +:+ TABs +:+ "site" +:+ TABs +:+ "id" +:+ NL;
               "s1" +:+ TABs +:+ "gut" +:+ TABs +:+ "NA" +:+ NL ] = Ok [r]
       ∧ r !! "id" = Some "s1".
Proof.
  apply (parse_duplicate_column
           ("id" +:+ TABs +:+ "site" +:+ TABs +:+ "id" +:+ NL)
           ("s1" +:+ TABs +:+ "gut" +:+ TABs +:+ "NA" +:+ NL) 0 "id" "s1").
  - vm_compute. intros H. repeat (apply elem_of_cons in H as [H|H]; [discriminate|]).
    by apply elem_of_nil in H.
  - split; [reflexivity|vm_compute; discriminate].
  - reflexivity.
  - reflexivity.
  - apply (bool_decide_unpack _). vm_compute. exact I.
  - intros j v' Hj Hk Hv'.
    destruct j as [|[|[|j]]]; [lia| | |]; vm_compute in Hk, Hv'; try discriminate.
    injection Hv' as <-. apply (bool_decide_unpack _). vm_compute. exact I.
Defined.

(** ** The format converter: the stream *)

Lemma rename_lookup (r : gmap string string) qiime_field core_field k :
  qiime_field ≠ core_field → r !! core_field = None →
  match r !! qiime_field with
  | Some qiime_val => <[core_field := qiime_val]> (delete qiime_field r)
  | None => r
  end !! k
  = if decide (k = core_field) then r !! qiime_field
    else if decide (k = qiime_field) then None else r !! k.
Proof.
  intros Hne Hcore. destruct (r !! qiime_field) as [v|] eqn:Hq.
  - repeat case_decide; subst.
    + apply lookup_insert_eq.
    + rewrite lookup_insert_ne by done. apply lookup_delete_eq.
    + rewrite lookup_insert_ne by done. by apply lookup_delete_ne.
  - repeat case_decide; by subst.
Qed.

(** The record that [convert_from_qiime] makes of a record without core
    names, key by key. *)
Lemma convert_record_lookup (r : gmap string string) :
  no_core_field r →
  ∃ r', convert_record r = Ok r'
    ∧ ∀ k, r' !! k =
        if decide (k = "sample_name") then r !! "SampleID"
        else if decide (k = "barcode_sequence") then r !! "BarcodeSequence"
        else if decide (k ∈ ["Description"; "SampleID"; "BarcodeSequence"])
        then None else r !! k.
Proof.
  intros [Hs Hb]. unfold convert_record.
  set (r1 := if decide (is_Some (r !! "Description")) then _ else _).
  assert (∀ k, r1 !! k = if decide (k = "Description") then None else r !! k) as H1.
  { intros k. subst r1. repeat case_decide; subst.
    - apply lookup_delete_eq.
    - by apply lookup_delete_ne.
    - by apply eq_None_not_Some.
    - done. }
  cbn [for_each QIIME_FIELDS].
  rewrite rename_field_move, bind_Ok by (by rewrite H1).
  set (r2 := match r1 !! "SampleID" with Some _ => _ | None => _ end).
  assert (∀ k, r2 !! k =
    if decide (k = "sample_name") then r !! "SampleID"
    else if decide (k = "SampleID") then None
    else if decide (k = "Description") then None else r !! k) as H2.
  { intros k. subst r2. rewrite rename_lookup by (by rewrite ?H1).
    rewrite !H1. by repeat case_decide; subst. }
  rewrite rename_field_move, bind_Ok by (by rewrite H2).
  eexists. split; [done|]. intros k.
  rewrite rename_lookup by (by rewrite ?H2). rewrite !H2.
  repeat case_decide; subst; try done; set_solver.
Qed.

Lemma convert_record_conflict (r : gmap string string) :
  ¬ no_core_field r →
  ∃ e, convert_record r = Raise e ∧ is_ConflictError e.
Proof.
  intros Hcore. unfold convert_record.
  set (r1 := if decide (is_Some (r !! "Description")) then _ else _).
  assert (∀ k, k ≠ "Description" → r1 !! k = r !! k) as H1.
  { intros k Hk. subst r1. case_decide; [by apply lookup_delete_ne|done]. }
  cbn [for_each QIIME_FIELDS].
  destruct (r !! "sample_name") as [v|] eqn:Hs.
  { rewrite rename_field_conflict by (by rewrite H1, Hs). by eexists. }
  rewrite rename_field_move, bind_Ok by (by rewrite H1, Hs).
  rewrite rename_field_conflict; [by eexists|].
  assert (r1 !! "sample_name" = None) as Hs1 by (by rewrite H1).
  rewrite rename_lookup, !decide_False, H1 by done.
  destruct (r !! "barcode_sequence") as [v|] eqn:Hb; [done|].
  destruct Hcore. by split.
Qed.

(** [convert_from_qiime] yields the conversions of the records in order,
    as many as the records when none has a core name; at the first record
    that has one it raises the conflict error and yields nothing more. *)
Theorem convert_from_qiime_stream (recs : list (gmap string string)) :
  ∃ outs,
    (∀ i out, outs !! i = Some out →
       ∃ r, recs !! i = Some r ∧ no_core_field r ∧ convert_record r = Ok out)
    ∧ ((length outs = length recs
        ∧ convert_from_qiime recs = Ok <$> outs)
       ∨ (∃ e r, recs !! length outs = Some r ∧ ¬ no_core_field r
                 ∧ is_ConflictError e
                 ∧ convert_from_qiime recs = (Ok <$> outs) ++ [Raise e])).
Proof.
  induction recs as [|r recs (outs & Houts & IH)].
  { exists []. split; [done|]. by left. }
  cbn [convert_from_qiime].
  destruct (decide (no_core_field r)) as [Hr|Hr].
  - destruct (convert_record_lookup r Hr) as (r' & Hconv & _). rewrite Hconv.
    exists (r' :: outs). split.
    + intros [|i] out; simpl; [intros [= <-]; by exists r|apply Houts].
    + destruct IH as [[Hlen ->]|(e & r0 & Hr0 & Hcore & He & ->)].
      * left. simpl. by rewrite Hlen.
      * right. by exists e, r0.
  - destruct (convert_record_conflict r Hr) as (e & Hconv & He). rewrite Hconv.
    exists []. split; [done|]. right. by exists e, r.
Qed.

(** A converted record converts again only when nothing was renamed:
    after a rename the core name is there, and a second conversion raises
    the conflict error. *)
Theorem convert_from_qiime_twice (r r' : gmap string string) :
  convert_record r = Ok r' →
  (r !! "SampleID" = None → r !! "BarcodeSequence" = None →
   convert_record r' = Ok r')
  ∧ (is_Some (r !! "SampleID") ∨ is_Some (r !! "BarcodeSequence") →
     ∃ e, convert_record r' = Raise e ∧ is_ConflictError e).
Proof.
  intros Hconv.
  destruct (decide (no_core_field r)) as [Hr|Hr].
  2:{ destruct (convert_record_conflict r Hr) as (e & He & _). congruence. }
  destruct (convert_record_lookup r Hr) as (r0 & Hconv0 & Hlk).
  assert (r0 = r') as -> by congruence. destruct Hr as [Hs Hb]. split.
  - intros Hq1 Hq2.
    assert (no_core_field r') as Hr'.
    { split; rewrite Hlk; by repeat case_decide. }
    destruct (convert_record_lookup r' Hr') as (r'' & Hconv' & Hlk').
    rewrite Hconv'. f_equal. apply map_eq. intros k.
    rewrite Hlk', !Hlk. repeat case_decide; subst; try done; set_solver.
  - intros Hq. apply convert_record_conflict. intros [Hs' Hb'].
    rewrite Hlk in Hs', Hb'. repeat case_decide; try done.
    destruct Hq as [[? ?]|[? ?]]; congruence.
Qed.

Lemma convert_from_qiime_twice_witness :
  (({[ "SampleID" := "S1" ]} : gmap string string) !! "SampleID" = None →
   ({[ "SampleID" := "S1" ]} : gmap string string) !! "BarcodeSequence" = None →
   convert_record (named "S1") = Ok (named "S1"))
  ∧ (is_Some (({[ "SampleID" := "S1" ]} : gmap string string) !! "SampleID")
     ∨ is_Some (({[ "SampleID" := "S1" ]} : gmap string string) !! "BarcodeSequence") →
     ∃ e, convert_record (named "S1") = Raise e ∧ is_ConflictError e).
Proof.
  apply (convert_from_qiime_twice {[ "SampleID" := "S1" ]} (named "S1")).
  vm_compute. reflexivity.
Defined.

(** ** The validator: success and failure *)

Lemma for_each_Raise {A S : Type} (body : S → A → result S) xs st e :
  for_each body xs st = Raise e ↔
  ∃ pre x post st', xs = pre ++ x :: post
                    ∧ for_each body pre st = Ok st' ∧ body st' x = Raise e.
Proof.
  revert st. induction xs as [|x xs IH]; intros st.
  - split; [done|]. intros (pre & ? & ? & ? & Heq & _). by destruct pre.
  - cbn [for_each]. destruct (body st x) as [st1|e1] eqn:Hx.
    + rewrite bind_Ok, IH. split.
      * intros (pre & y & post & st' & -> & Hpre & Hy).
        exists (x :: pre), y, post, st'. split_and!; [done| |done].
        cbn [for_each]. by rewrite Hx.
      * intros (pre & y & post & st' & Heq & Hpre & Hy).
        destruct pre as [|x' pre]; simplify_eq/=; [congruence|].
        rewrite Hx in Hpre. by exists pre, y, post, st'.
    + split.
      * intros [= <-]. by exists [], x, xs, st.
      * intros (pre & y & post & st' & Heq & Hpre & Hy).
        destruct pre as [|x' pre]; simplify_eq/=; [congruence|].
        by rewrite Hx in Hpre.
Qed.

Lemma validate_loop_Ok recs (sample_names barcodes : gset string) st :
  for_each validate_step recs (sample_names, barcodes) = Ok st →
  Forall passes_field_checks recs.
Proof.
  revert sample_names barcodes. induction recs as [|r recs IH]; intros N B Hrun.
  { constructor. }
  cbn [for_each] in Hrun.
  destruct (validate_step_cases N B r) as [[_ [key Hr]]|[Hok Hr]];
    rewrite Hr in Hrun; [done|].
  destruct (r !! "sample_name") as [name|] eqn:Hname; [|done].
  case_decide; [done|]. case_decide; [done|]. rewrite bind_Ok in Hrun.
  constructor; [by split; eauto|by eapply IH].
Qed.

(** The names and barcodes seen after a pass without error. *)
Lemma validate_loop_seen recs st :
  for_each validate_step recs (∅, ∅) = Ok st →
  validate recs = Ok ()
  ∧ st = (list_to_set (sample_names_of recs), list_to_set (barcodes_of recs))
  ∧ Forall passes_field_checks recs
  ∧ NoDup (sample_names_of recs) ∧ NoDup (barcodes_of recs).
Proof.
  intros Hrun. pose proof (validate_loop_Ok _ _ _ _ Hrun) as Hok.
  pose proof (validate_loop_checked recs ∅ ∅ Hok) as Hloop.
  unfold validate. rewrite Hrun in *. destruct st as [N B].
  destruct Hloop as (-> & -> & ? & ? & _).
  split_and!; [done| |done..]. f_equal; set_solver.
Qed.

(** [validate] passes exactly the sequences in which every record is free
    of illegal characters and has a [sample_name], no sample name repeats
    and no barcode value repeats. *)
Theorem validate_Ok_iff (recs : list (gmap string string)) :
  validate recs = Ok ()
  ↔ Forall passes_field_checks recs
    ∧ NoDup (sample_names_of recs) ∧ NoDup (barcodes_of recs).
Proof.
  split.
  - unfold validate. destruct (for_each _ _ _) as [st|e] eqn:Hrun; [|done].
    intros _. by destruct (validate_loop_seen _ _ Hrun) as (_ & _ & ? & ? & ?).
  - intros (Hok & Hn & Hb).
    pose proof (validate_loop_checked recs ∅ ∅ Hok) as Hloop.
    unfold validate. destruct (for_each _ _ _) as [[N B]|e]; [done|].
    destruct Hloop as [_ [?|[?|[(? & _ & ?)|(? & _ & ?)]]]]; set_solver.
Qed.

(** The first error is final, and a sequence that passes has passing
    prefixes: records after a failing one are not looked at. *)
Theorem validate_prefix (recs more : list (gmap string string)) :
  (∀ e, validate recs = Raise e → validate (recs ++ more) = Raise e)
  ∧ (validate (recs ++ more) = Ok () → validate recs = Ok ()).
Proof.
  unfold validate. rewrite for_each_app.
  destruct (for_each validate_step recs (∅, ∅)) as [st|e0]; simpl.
  - split; [by intros e [=]|done].
  - split; [by intros e [= <-]|done].
Qed.

Lemma check_chars_first r allowed :
  for_each (check_chars r) allowed ()
  = match first_illegal_field allowed r with
    | Some key => Raise (ValueError (InvalidCharacterError key r))
    | None => Ok ()
    end.
Proof.
  induction allowed as [|[key cs] allowed IH]; [done|].
  cbn [for_each first_illegal_field].
  assert (check_chars r () (key, cs)
          = match r !! key with
            | Some val => if all_chars_in cs val then Ok ()
                          else Raise (ValueError (InvalidCharacterError key r))
            | None => Ok ()
            end) as -> by done.
  destruct (r !! key) as [val|]; [destruct (all_chars_in cs val)|];
    rewrite ?bind_Ok; done.
Qed.

Lemma first_illegal_field_None r :
  first_illegal_field ALLOWED_CHARS r = None ↔ ¬ has_illegal_char r.
Proof.
  pose proof (check_chars_first r ALLOWED_CHARS) as Hrun. split.
  - intros Hnone. rewrite Hnone in Hrun. by apply no_illegal_char_run.
  - intros Hok. destruct (first_illegal_field ALLOWED_CHARS r) as [key|]; [|done].
    destruct Hok. apply has_illegal_char_iff.
    destruct (check_all_chars r ALLOWED_CHARS)
      as [[Hrun' _]|(k & cs & val & ? & ? & ? & _)]; [congruence|].
    by exists k, cs, val.
Qed.

(** Which error [validate] raises, and where: at the first record [r],
    after a prefix that passes, that holds an illegal character (the error
    names the first such field in the order of [ALLOWED_CHARS]), or else
    lacks a [sample_name], or else repeats a sample name of the prefix, or
    else repeats a barcode value of the prefix. *)
Theorem validate_error (recs : list (gmap string string)) (e : exn) :
  validate recs = Raise e ↔
  ∃ pre r post,
    recs = pre ++ r :: post ∧ validate pre = Ok ()
    ∧ ((∃ key, first_illegal_field ALLOWED_CHARS r = Some key
               ∧ e = ValueError (InvalidCharacterError key r))
       ∨ (¬ has_illegal_char r ∧ r !! "sample_name" = None
          ∧ e = ValueError (MissingFieldError r))
       ∨ (¬ has_illegal_char r
          ∧ ∃ name, r !! "sample_name" = Some name
              ∧ ((name ∈ sample_names_of pre
                  ∧ e = ValueError (DuplicateNameError r))
                 ∨ ((name ∉ sample_names_of pre)
                    ∧ default "" (r !! "barcode_sequence") ∈ barcodes_of pre
                    ∧ e = ValueError (DuplicateBarcodeError r))))).
Proof.
  assert (∀ pre r st, for_each validate_step pre (∅, ∅) = Ok st →
    (validate_step st r = Raise e ↔
     ((∃ key, first_illegal_field ALLOWED_CHARS r = Some key
               ∧ e = ValueError (InvalidCharacterError key r))
       ∨ (¬ has_illegal_char r ∧ r !! "sample_name" = None
          ∧ e = ValueError (MissingFieldError r))
       ∨ (¬ has_illegal_char r
          ∧ ∃ name, r !! "sample_name" = Some name
              ∧ ((name ∈ sample_names_of pre
                  ∧ e = ValueError (DuplicateNameError r))
                 ∨ ((name ∉ sample_names_of pre)
                    ∧ default "" (r !! "barcode_sequence") ∈ barcodes_of pre
                    ∧ e = ValueError (DuplicateBarcodeError r))))))) as Hstep.
  { intros pre r st Hpre.
    destruct (validate_loop_seen _ _ Hpre) as (_ & -> & _).
    unfold validate_step. rewrite check_chars_first.
    destruct (first_illegal_field ALLOWED_CHARS r) as [key|] eqn:Hfirst.
    - simpl. split.
      + intros [= <-]. left. by exists key.
      + intros [(key' & [= <-] & ->)|[[Hok _]|[Hok _]]];
          [done|apply first_illegal_field_None in Hok; congruence..].
    - apply first_illegal_field_None in Hfirst as Hok. rewrite bind_Ok.
      destruct (r !! "sample_name") as [name|] eqn:Hname.
      + case_decide as Hn; rewrite elem_of_list_to_set in Hn.
        { split; [intros [= <-]; right; right; split; [done|]; exists name; auto|].
          intros [(? & ? & _)|[(_ & ? & _)|(_ & name' & [= <-] & [[_ ->]|[? _]])]]; done. }
        case_decide as Hb; rewrite elem_of_list_to_set in Hb.
        { split; [intros [= <-]; right; right; split; [done|]; exists name; auto|].
          intros [(? & ? & _)|[(_ & ? & _)|(_ & name' & [= <-] & [[? _]|(_ & _ & ->)])]]; done. }
        split; [done|].
        intros [(? & ? & _)|[(_ & ? & _)|(_ & name' & [= <-] & [[? _]|(_ & ? & _)])]]; done.
      + split; [intros [= <-]; right; left; done|].
        intros [(? & ? & _)|[(_ & _ & ->)|(_ & name' & ? & _)]]; done. }
  unfold validate at 1. split.
  - destruct (for_each _ recs _) as [st|e0] eqn:Hrun; [done|]. intros [= ->].
    apply for_each_Raise in Hrun as (pre & r & post & st' & -> & Hpre & Hr).
    exists pre, r, post. split_and!; [done|by apply (validate_loop_seen _ _ Hpre)|].
    by apply (Hstep pre r st' Hpre).
  - intros (pre & r & post & -> & Hpre & Hcases).
    unfold validate in Hpre.
    destruct (for_each validate_step pre (∅, ∅)) as [st'|?] eqn:Hrun; [|done].
    apply (Hstep pre r st' Hrun) in Hcases.
    rewrite for_each_app, Hrun, bind_Ok. cbn [for_each]. by rewrite Hcases.
Qed.

(** ** The EAV caster: fields and cells *)

Lemma cast_step_fields accessions fields rows t fields' rows' :
  cast_step accessions (fields, rows) t = Ok (fields', rows') →
  fields' = if decide (taken accessions t) then add_column fields t.1.2
            else fields.
Proof.
  destruct t as [[a f] v]. unfold cast_step, add_column. cbn [fst snd].
  destruct (decide (a ∉ accessions)) as [Ha|Ha].
  { intros [= <- <-]. rewrite decide_False; [done|]. by intros [? _]. }
  destruct (Py.index accessions a) as [si|?]; [|done]. rewrite bind_Ok.
  destruct (decide (Py.lower f ∈ ["description"])) as [Hd|Hd].
  { intros [= <- <-]. rewrite decide_False; [done|]. by intros [_ ?]. }
  assert (taken accessions (a, f, v)) as Htaken
    by (split; [by apply dec_stable|done]).
  rewrite (decide_True _ _ Htaken).
  destruct (decide (f ∉ fields)).
  all: destruct (Py.index _ f); [rewrite bind_Ok|done].
  all: destruct (Py.getitem _ si); [rewrite bind_Ok|done].
  all: destruct (Py.setitem _ _ v); [rewrite bind_Ok|done].
  all: destruct (Py.setitem _ si _); [rewrite bind_Ok|done].
  all: by intros [= <- <-].
Qed.

Lemma cast_loop_fields accessions annots fields rows fields' rows' :
  for_each (cast_step accessions) annots (fields, rows) = Ok (fields', rows') →
  fields' = foldl add_column fields
              ((λ t : annotation, t.1.2) <$> filter (taken accessions) annots).
Proof.
  revert fields rows. induction annots as [|t annots IH]; intros fields rows.
  { by intros [= <- <-]. }
  cbn [for_each]. destruct (cast_step _ _ t) as [[fields1 rows1]|?] eqn:Hstep; [|done].
  rewrite bind_Ok. intros Hrun%IH. apply cast_step_fields in Hstep.
  rewrite filter_cons. destruct (decide (taken accessions t)); by subst.
Qed.

(** The annotation columns stand in the order in which the stream first
    names them, each once: they are the fields of the triples [_cast]
    takes, every field added where it first occurs. *)
Theorem cast_fields_first_seen (samples : list Sample)
    (annotations : list annotation) :
  ∃ fields rows,
    _cast samples annotations = Ok (fields, rows)
    ∧ NoDup fields
    ∧ fields = foldl add_column []
                 ((λ t : annotation, t.1.2)
                    <$> filter (taken (accession <$> samples)) annotations).
Proof.
  destruct (cast_spec samples annotations) as (fields & rows & Hrun & [_ _ Hnd _ _]).
  exists fields, rows. split_and!; [done..|].
  by eapply cast_loop_fields.
Qed.

(** Every cell of the table: under field [f], the row of the sample at
    position [i] holds the value of the last triple of the stream written
    there, and ["NA"] when there is none. *)
Theorem cast_cells (samples : list Sample) (annotations : list annotation) :
  ∃ fields rows,
    _cast samples annotations = Ok (fields, rows)
    ∧ ∀ i s j f, samples !! i = Some s → fields !! j = Some f →
        ∃ row, rows !! i = Some row
               ∧ row !! j = Some (default "NA"
                   (last_value (accession <$> samples) i f annotations)).
Proof.
  destruct (cast_spec samples annotations) as (fields & rows & Hrun & [H1 _ _ _ H5]).
  exists fields, rows. split; [done|]. intros i s j f Hi Hj.
  destruct (lookup_lt_is_Some_2 rows i) as [row Hrow].
  { rewrite H1, length_fmap. by eapply lookup_lt_Some. }
  exists row. split; [done|]. by eapply H5.
Qed.

(** A sample none of whose triples is taken (it has none, or only
    descriptions) has a row of ["NA"] throughout. *)
Theorem cast_unannotated_sample (samples : list Sample)
    (annotations : list annotation) (i : nat) (s : Sample) :
  samples !! i = Some s →
  (∀ f v, (accession s, f, v) ∈ annotations → Py.lower f ∈ ["description"]) →
  ∃ fields rows,
    _cast samples annotations = Ok (fields, rows)
    ∧ rows !! i = Some (replicate (length fields) "NA").
Proof.
  intros Hi Hnone.
  destruct (cast_spec samples annotations) as (fields & rows & Hrun & [H1 H2 _ _ H5]).
  exists fields, rows. split; [done|].
  destruct (lookup_lt_is_Some_2 rows i) as [row Hrow].
  { rewrite H1, length_fmap. by eapply lookup_lt_Some. }
  rewrite Hrow. f_equal. apply list_eq. intros j.
  destruct (decide (j < length fields)) as [Hj|Hj].
  - destruct (lookup_lt_is_Some_2 fields j Hj) as [f Hf].
    rewrite (H5 _ _ _ _ Hrow Hf), lookup_replicate_2 by done.
    destruct (last_value _ i f annotations) as [v|] eqn:Hlv; [|done].
    apply last_value_Some in Hlv as (a & Hin & Ha & Hd).
    apply PyFacts.index_Ok_lookup in Ha. rewrite list_lookup_fmap, Hi in Ha.
    injection Ha as <-. destruct Hd. by eapply Hnone.
  - rewrite lookup_ge_None_2 by (rewrite (H2 _ _ Hrow); lia).
    symmetry. apply lookup_ge_None_2. rewrite length_replicate. lia.
Qed.

Lemma cast_unannotated_sample_witness :
  ∃ fields rows,
    _cast [sampleA; {| name := "b1"; barcode := "GGGG"; primer := "AGGT";
                       accession := "B"; formatted_accession := "PCMP000003" |}]
          [("A", "site", "gut"); ("B", "Description", "blank")]
      = Ok (fields, rows)
    ∧ rows !! 1 = Some (replicate (length fields) "NA").
Proof.
  apply (cast_unannotated_sample _ _ 1
           {| name := "b1"; barcode := "GGGG"; primer := "AGGT";
              accession := "B"; formatted_accession := "PCMP000003" |}).
  - reflexivity.
  - intros f v Hin. cbn [accession] in Hin.
    apply elem_of_cons in Hin as [[=]|Hin].
    apply list_elem_of_singleton in Hin as [= -> ->].
    apply (bool_decide_unpack _). vm_compute. exact I.
Defined.

(** ** The QIIME writer: layout *)

Lemma qiime_rows_text buff (pairs : list (Sample * list string)) :
  foldl (λ buff '(s, annotation_row),
           let vals := qiime_vals s annotation_row in
           let buff := buff +:+ Py.join TABs vals in
           buff +:+ NL)
        buff pairs
  = buff +:+ lines_text ((λ '(s, row), Py.join TABs (qiime_vals s row)) <$> pairs).
Proof.
  revert buff. induction pairs as [|[s row] pairs IH]; intros buff.
  - by rewrite TextFacts.app_nil_r.
  - cbn [foldl fmap list_fmap lines_text foldr]. rewrite IH.
    by rewrite !TextFacts.app_assoc.
Qed.

Lemma create_qiime_text (run : Run) (samples : list Sample)
    (annotations : list annotation) :
  ∃ fields rows,
    _cast samples annotations = Ok (fields, rows)
    ∧ length rows = length samples
    ∧ create_qiime run samples annotations
      = Ok (lines_text
              ([ "#" +:+ Py.join TABs (qiime_header_fields fields);
                 "#" +:+ run_comment run;
                 "#Sequencing date: " +:+ run_date run;
                 "#Region: " +:+ run_region run;
                 "#Platform: " +:+ run_platform run;
                 "#Bushman lab run accession: " +:+ run_formatted_accession run ]
               ++ zip_with (λ s row, Py.join TABs (qiime_vals s row))
                    samples rows)).
Proof.
  destruct (cast_spec samples annotations) as (fields & rows & Hrun & [H1 _ _ _ _]).
  exists fields, rows. split_and!; [done|by rewrite H1, length_fmap|].
  unfold create_qiime. rewrite Hrun, bind_Ok. cbn beta iota. f_equal.
  rewrite qiime_rows_text.
  assert ((λ '(s, row), Py.join TABs (qiime_vals s row)) <$> zip samples rows
          = zip_with (λ s row, Py.join TABs (qiime_vals s row)) samples rows) as ->.
  { clear. revert rows. induction samples as [|s samples IH]; intros [|row rows];
      simpl; [done..|]. by rewrite IH. }
  cbn [app lines_text foldr].
  by rewrite !TextFacts.app_assoc, !TextFacts.app_nil_l.
Qed.

(** [create_qiime] never raises.  Its text is the header line, the five
    comment lines of the run, then one line per sample, in order, none
    left out: the three sample values, the annotation row and the
    formatted accession, joined by tabs. *)
Theorem create_qiime_layout (run : Run) (samples : list Sample)
    (annotations : list annotation) :
  ∃ fields rows,
    _cast samples annotations = Ok (fields, rows)
    ∧ length rows = length samples
    ∧ create_qiime run samples annotations
      = Ok (lines_text
              ([ "#" +:+ Py.join TABs (qiime_header_fields fields);
                 "#" +:+ run_comment run;
                 "#Sequencing date: " +:+ run_date run;
                 "#Region: " +:+ run_region run;
                 "#Platform: " +:+ run_platform run;
                 "#Bushman lab run accession: " +:+ run_formatted_accession run ]
               ++ zip_with (λ s row, Py.join TABs (qiime_vals s row))
                    samples rows)).
Proof. apply create_qiime_text. Qed.

(** ** The annotation splitter *)

Section SplitAnnotations.
Variable set_iter : nat → gmap string string → gset string → list string.
Hypothesis set_iter_elements : ∀ i r X, set_iter i r X ≡ₚ elements X.

Lemma split_pairs (r : gmap string string) keys :
  (∀ k, k ∈ keys → is_Some (r !! k)) →
  ∃ annotations,
    mapM (λ k, v ← r !! k; Some (k, v)) keys = Some annotations
    ∧ annotations.*1 = keys
    ∧ ∀ k v, (k, v) ∈ annotations ↔ k ∈ keys ∧ r !! k = Some v.
Proof.
  induction keys as [|k keys IH]; intros Hkeys.
  - exists []. split_and!; [done..|]. intros k v. rewrite !elem_of_nil. tauto.
  - destruct (Hkeys k) as [v Hv]; [by apply elem_of_cons; left|].
    destruct IH as (annots & Hrun & Hfst & Hin).
    { intros k' Hk'. apply Hkeys. by apply elem_of_cons; right. }
    exists ((k, v) :: annots). split_and!.
    + cbn. rewrite Hv. cbn. fold (mapM (λ k, v ← r !! k; Some (k, v)) keys).
      by rewrite Hrun.
    + cbn. by rewrite Hfst.
    + intros k' v'. rewrite !elem_of_cons, Hin. split.
      * intros [[= -> ->]|[? ?]]; auto.
      * intros [[->|?] Hk']; [left; congruence|auto].
Qed.

Lemma split_record_spec (i : nat) (r : gmap string string) :
  ∃ annotations,
    split_record set_iter i r
      = Some ([default "" (r !! "sample_name");
               default "" (r !! "barcode_sequence")], annotations)
    ∧ NoDup annotations.*1
    ∧ ∀ k v, (k, v) ∈ annotations ↔ r !! k = Some v ∧ k ∉ SAMPLE_FIELDS.
Proof.
  unfold split_record.
  set (X := dom r ∖ list_to_set SAMPLE_FIELDS).
  assert (∀ k, k ∈ set_iter i r X ↔ is_Some (r !! k) ∧ k ∉ SAMPLE_FIELDS) as Hkeys.
  { intros k. rewrite set_iter_elements, elem_of_elements. subst X.
    rewrite elem_of_difference, elem_of_dom, elem_of_list_to_set. done. }
  destruct (split_pairs r (set_iter i r X)) as (annots & -> & Hfst & Hin).
  { intros k Hk. by apply Hkeys. }
  exists annots. split_and!; [done| |].
  - rewrite Hfst, set_iter_elements. apply NoDup_elements.
  - intros k v. rewrite Hin, Hkeys. split.
    + intros [[_ ?] ?]. done.
    + intros [? ?]. split_and!; eauto.
Qed.

Lemma split_annotations_from_spec (i0 : nat) (recs : list (gmap string string)) :
  ∃ outs,
    split_annotations_from set_iter i0 recs = Some <$> outs
    ∧ length outs = length recs
    ∧ ∀ i r, recs !! i = Some r →
        ∃ annotations,
          outs !! i = Some ([default "" (r !! "sample_name");
                             default "" (r !! "barcode_sequence")], annotations)
          ∧ NoDup annotations.*1
          ∧ ∀ k v, (k, v) ∈ annotations ↔
                   r !! k = Some v ∧ k ∉ SAMPLE_FIELDS.
Proof.
  revert i0. induction recs as [|r recs IH]; intros i0.
  { by exists []. }
  destruct (IH (S i0)) as (outs & Hrun & Hlen & Houts).
  destruct (split_record_spec i0 r) as (annots & Hr & Hnd & Hin).
  cbn [split_annotations_from]. rewrite Hr, Hrun.
  eexists (_ :: outs). split_and!; [done|by rewrite !length_cons, Hlen|].
  intros [|i] r'; simpl; [intros [= <-]; by exists annots|apply Houts].
Qed.

(** [split_annotations] never raises and yields one pair per record, in
    order: the sample name and the barcode of the record, the empty string
    for an absent one, and the other entries of the record, each once,
    whatever the order in which the sets of keys are iterated. *)
Theorem split_annotations_spec (recs : list (gmap string string)) :
  ∃ outs,
    split_annotations set_iter recs = Some <$> outs
    ∧ length outs = length recs
    ∧ ∀ i r, recs !! i = Some r →
        ∃ annotations,
          outs !! i = Some ([default "" (r !! "sample_name");
                             default "" (r !! "barcode_sequence")], annotations)
          ∧ NoDup annotations.*1
          ∧ ∀ k v, (k, v) ∈ annotations ↔
                   r !! k = Some v ∧ k ∉ SAMPLE_FIELDS.
Proof. apply split_annotations_from_spec. Qed.

(** The pair of a record holds all of it: the annotation pairs, as a map,
    are the record without its two core fields. *)
Theorem split_annotations_rebuild (i : nat) (r : gmap string string)
    (sample : list string) (annotations : list (string * string)) :
  split_record set_iter i r = Some (sample, annotations) →
  list_to_map annotations = delete "sample_name" (delete "barcode_sequence" r)
  ∧ (∀ n b, r !! "sample_name" = Some n → r !! "barcode_sequence" = Some b →
       sample = [n; b]
       ∧ r = <["sample_name" := n]>
               (<["barcode_sequence" := b]> (list_to_map annotations))).
Proof.
  intros Hsplit. destruct (split_record_spec i r) as (annots & Hr & Hnd & Hin).
  rewrite Hr in Hsplit. injection Hsplit as <- <-.
  assert ((list_to_map annots : gmap string string)
          = delete "sample_name" (delete "barcode_sequence" r)) as Hmap.
  { apply map_eq. intros k. destruct (list_to_map annots !! k) as [v|] eqn:Hk.
    - apply elem_of_list_to_map in Hk; [|done]. apply Hin in Hk as [Hk Hcore].
      unfold SAMPLE_FIELDS in Hcore. rewrite !not_elem_of_cons in Hcore.
      destruct Hcore as (? & ? & _). by rewrite !lookup_delete_ne.
    - symmetry. apply not_elem_of_list_to_map in Hk.
      destruct (decide (k = "sample_name")) as [->|?]; [apply lookup_delete_eq|].
      rewrite lookup_delete_ne by done.
      destruct (decide (k = "barcode_sequence")) as [->|?]; [apply lookup_delete_eq|].
      rewrite lookup_delete_ne by done.
      destruct (r !! k) as [v|] eqn:Hrk; [|done]. destruct Hk.
      apply list_elem_of_fmap. exists (k, v). split; [done|]. apply Hin.
      split; [done|]. unfold SAMPLE_FIELDS. rewrite !not_elem_of_cons.
      split_and!; [done..|apply not_elem_of_nil].
  }
  split; [done|]. intros n b Hn Hb. rewrite Hn, Hb. split; [done|].
  rewrite Hmap. apply map_eq. intros k.
  destruct (decide (k = "sample_name")) as [->|?]; [by rewrite lookup_insert_eq|].
  rewrite lookup_insert_ne by done.
  destruct (decide (k = "barcode_sequence")) as [->|?]; [by rewrite lookup_insert_eq|].
  by rewrite lookup_insert_ne, !lookup_delete_ne.
Qed.

(** The pair does not tell an absent core field from an empty one: with
    the empty string put under an absent core name, the record yields the
    same core values and the same annotation pairs, in an order that may
    differ. *)
Theorem split_annotations_absent_or_empty (i j : nat)
    (r : gmap string string) (core : string) :
  core ∈ SAMPLE_FIELDS → r !! core = None →
  ∃ sample annotations annotations',
    split_record set_iter i r = Some (sample, annotations)
    ∧ split_record set_iter j (<[core := ""]> r) = Some (sample, annotations')
    ∧ annotations' ≡ₚ annotations.
Proof.
  intros Hcore Hnone.
  destruct (split_record_spec i r) as (annots & Hr & Hnd & Hin).
  destruct (split_record_spec j (<[core := ""]> r)) as (annots' & Hr' & Hnd' & Hin').
  exists [default "" (r !! "sample_name"); default "" (r !! "barcode_sequence")],
         annots, annots'.
  split_and!; [done| |].
  - rewrite Hr'. do 3 f_equal.
    + destruct (decide (core = "sample_name")) as [->|?].
      * by rewrite lookup_insert_eq, Hnone.
      * by rewrite lookup_insert_ne.
    + f_equal. destruct (decide (core = "barcode_sequence")) as [->|?].
      * by rewrite lookup_insert_eq, Hnone.
      * by rewrite lookup_insert_ne.
  - apply NoDup_Permutation; [by eapply NoDup_fmap_1..|].
    intros [k v]. rewrite Hin, Hin'. split.
    + intros [Hk Hk']. split; [|done].
      rewrite lookup_insert_ne in Hk; [done|]. by intros <-.
    + intros [Hk Hk']. split; [|done].
      rewrite lookup_insert_ne; [done|]. by intros <-.
Qed.

End SplitAnnotations.

Lemma split_annotations_spec_witness :
  ∃ outs,
    split_annotations (λ _ _ X, elements X) [rec1; rec2] = Some <$> outs
    ∧ length outs = length [rec1; rec2]
    ∧ ∀ i r, [rec1; rec2] !! i = Some r →
        ∃ annotations,
          outs !! i = Some ([default "" (r !! "sample_name");
                             default "" (r !! "barcode_sequence")], annotations)
          ∧ NoDup annotations.*1
          ∧ ∀ k v, (k, v) ∈ annotations ↔
                   r !! k = Some v ∧ k ∉ SAMPLE_FIELDS.
Proof.
  apply (split_annotations_spec (λ _ _ X, elements X)). intros i r X. reflexivity.
Defined.

Lemma split_annotations_rebuild_witness :
  list_to_map [("plate", "P1")]
    = delete "sample_name" (delete "barcode_sequence" rec2)
  ∧ (∀ n b, rec2 !! "sample_name" = Some n → rec2 !! "barcode_sequence" = Some b →
       ["S2"; "TTTT"] = [n; b]
       ∧ rec2 = <["sample_name" := n]>
                  (<["barcode_sequence" := b]> (list_to_map [("plate", "P1")]))).
Proof.
  apply (split_annotations_rebuild (λ _ _ X, elements X)) with (i := 0).
  - intros i r X. reflexivity.
  - vm_compute. reflexivity.
Defined.

Lemma split_annotations_absent_or_empty_witness :
  ∃ sample annotations annotations',
    split_record (λ _ _ X, elements X) 0 (<["plate" := "P1"]> (named "S1"))
      = Some (sample, annotations)
    ∧ split_record (λ _ _ X, elements X) 1
        (<["barcode_sequence" := ""]> (<["plate" := "P1"]> (named "S1")))
      = Some (sample, annotations')
    ∧ annotations' ≡ₚ annotations.
Proof.
  apply (split_annotations_absent_or_empty (λ _ _ X, elements X)).
  - intros i r X. reflexivity.
  - apply (bool_decide_unpack _). vm_compute. exact I.
  - reflexivity.
Defined.

(** ** From the QIIME writer back to the registry *)

Lemma fmap_Ok {A B : Type} (f : A → B) (a : A) : f <$> Ok a = Ok (f a).
Proof. done. Qed.

Lemma cast_no_annotations (samples : list Sample) :
  _cast samples [] = Ok ([], (λ _, []) <$> samples).
Proof. unfold _cast. cbn [for_each]. by rewrite <-list_fmap_compose. Qed.

Lemma dict_filter_lookup (P : string * string → Prop) `{!∀ kv, Decision (P kv)}
    (pairs : list (string * string)) k v :
  NoDup pairs.*1 →
  dict (filter P pairs) !! k = Some v ↔ (k, v) ∈ pairs ∧ P (k, v).
Proof.
  intros Hnd. split.
  - intros [? ?]%dict_lookup_Some%list_elem_of_filter. done.
  - intros [Hin HP]. apply dict_lookup_NoDup.
    + eapply sublist_NoDup; [done|]. apply fmap_sublist, sublist_filter.
    + by apply list_elem_of_filter.
Qed.

Lemma parse_line_hash keys a x :
  Py.startswith "#" a = true → parse_line keys ((a +:+ x) +:+ NL) = None.
Proof.
  destruct a as [|c a]; [done|]. intros Hc. unfold parse_line.
  rewrite !TextFacts.app_cons. cbn [Py.startswith] in *. by rewrite Hc.
Qed.

(** The record [parse] makes of a sample's line, under the header of a
    file without annotation columns. *)
Lemma parse_qiime_row (s : Sample) :
  sample_writable s →
  parse_line ["SampleID"; "BarcodeSequence"; "Description"]
    (Py.join TABs (qiime_vals s []) +:+ NL)
  = Some (dict (filter (λ kv : string * string, kv.2 ∉ NAs)
                  [("SampleID", name s); ("BarcodeSequence", barcode s);
                   ("Description", primer s)])).
Proof.
  intros (Hclean & Hname & Hcell).
  change (qiime_vals s [])
    with [name s; barcode s; primer s; formatted_accession s].
  rewrite parse_line_data.
  - by rewrite tokenize_join.
  - split.
    + rewrite TextFacts.join_cons, !TextFacts.app_assoc.
      unfold TABs at 1. rewrite TextFacts.app_cons, TextFacts.app_nil_l.
      rewrite TextFacts.startswith_app. by destruct (name s).
    + intros Hblank. apply Exists_exists in Hcell as (cell & Hin & Hne).
      apply Hne. by eapply blank_line_cells.
Qed.

Lemma convert_qiime_row (s : Sample) :
  convert_record
    (dict (filter (λ kv : string * string, kv.2 ∉ NAs)
             [("SampleID", name s); ("BarcodeSequence", barcode s);
              ("Description", primer s)]))
  = Ok (qiime_core s).
Proof.
  set (pairs := [("SampleID", name s); ("BarcodeSequence", barcode s);
                 ("Description", primer s)]).
  set (r := dict _).
  assert (NoDup pairs.*1) as Hnd.
  { cbn. repeat (apply NoDup_cons; split; [set_solver|]). constructor. }
  assert (∀ k v, r !! k = Some v ↔ (k, v) ∈ pairs ∧ v ∉ NAs) as Hr.
  { intros k v. subst r. by rewrite dict_filter_lookup. }
  assert (∀ k, k ∉ ["SampleID"; "BarcodeSequence"; "Description"] → r !! k = None)
    as Hother.
  { intros k Hk. destruct (r !! k) as [v|] eqn:Hrk; [|done].
    apply Hr in Hrk as [Hin _]. destruct Hk. subst pairs.
    set_solver. }
  destruct (convert_record_lookup r) as (r' & -> & Hlk).
  { split; apply Hother; set_solver. }
  f_equal. apply map_eq. intros k. apply option_eq. intros v.
  unfold qiime_core, drop_missing. rewrite map_lookup_filter_Some, Hlk. cbn [snd].
  destruct (decide (k = "sample_name")) as [->|?].
  { rewrite Hr, lookup_insert_eq. subst pairs. set_solver. }
  rewrite lookup_insert_ne by done.
  destruct (decide (k = "barcode_sequence")) as [->|?].
  { rewrite Hr, lookup_singleton_eq. subst pairs. set_solver. }
  rewrite lookup_singleton_ne by done.
  case_decide; [by split; [|intros [? _]]|].
  rewrite Hother by set_solver. by split; [|intros [? _]].
Qed.

(** A QIIME mapping file written without annotations and read back (the
    lines parsed, the records converted) gives, per sample and in order,
    the registry record of the sample's name and barcode: the header and
    the comment lines give no record, and the primer, read under
    ["Description"], goes with that column. *)
Theorem qiime_export_import (run : Run) (samples : list Sample) :
  run_one_line run → Forall sample_writable samples →
  (txt ← create_qiime run samples []; import_qiime txt)
  = Ok (Ok <$> (qiime_core <$> samples)).
Proof.
  intros (Hc1 & Hc2 & Hc3 & Hc4 & Hc5) Hsamples.
  destruct (create_qiime_text run samples []) as (fields & rows & Hcast & _ & ->).
  rewrite cast_no_annotations in Hcast. injection Hcast as <- <-.
  rewrite bind_Ok. unfold import_qiime.
  rewrite zip_with_fmap_r, zip_with_diag.
  rewrite readlines_lines_text.
  2:{ apply Forall_app. split.
      - repeat (apply Forall_cons; split;
                  [by rewrite ?TextFacts.char_in_app, ?Hc1, ?Hc2, ?Hc3, ?Hc4, ?Hc5|]).
        constructor.
      - apply Forall_fmap, Forall_forall. intros s Hs.
        change (Py.char_in Py.LF (Py.join TABs (qiime_vals s [])) = false).
        rewrite Forall_forall in Hsamples. destruct (Hsamples s Hs) as (Hclean & _).
        apply TextFacts.char_in_join; [done|].
        change (qiime_vals s [])
          with [name s; barcode s; primer s; formatted_accession s].
        eapply Forall_impl; [exact Hclean|]. by intros ? (_ & ? & _). }
  rewrite fmap_app. cbn [fmap list_fmap app]. unfold parse.
  assert (_tokenize (Py.lstrip "#"
            (("#" +:+ Py.join TABs (qiime_header_fields [])) +:+ NL))
          = ["SampleID"; "BarcodeSequence"; "Description"]) as -> by done.
  assert (forallb (λ k, negb (String.eqb k ""))
            ["SampleID"; "BarcodeSequence"; "Description"] = true) as -> by done.
  cbn [omap list_omap].
  rewrite !parse_line_hash by done.
  rewrite fmap_Ok. f_equal. induction Hsamples as [|s samples Hs Hsamples IH]; [done|].
  cbn [fmap list_fmap omap list_omap].
  rewrite parse_qiime_row by done. cbn [convert_from_qiime].
  rewrite convert_qiime_row. f_equal. apply IH.
Qed.

Lemma qiime_export_import_witness :
  (txt ← create_qiime run0 [sampleA; sampleA'] []; import_qiime txt)
  = Ok (Ok <$> (qiime_core <$> [sampleA; sampleA'])).
Proof.
  apply (qiime_export_import run0 [sampleA; sampleA']).
  - apply (bool_decide_unpack _). vm_compute. exact I.
  - apply (bool_decide_unpack _). vm_compute. exact I.
Defined.
